(** * postapply-rl: the two learning agents

    A shallow embedding of [src/rl_algorithms/q_learning.py]
    ([QLearningScheduler]) and [src/rl_algorithms/thompson_sampling.py]
    ([ThompsonSamplingMessenger]).

    - Python objects are records; a method is a function from the
      object's state to an [outcome]: the returned value, or the raised
      exception, together with the state the object is left in.
    - A Python [dict] is an insertion-ordered association list
      ([dict_get], [dict_set]): iteration order decides which maximiser
      [max] returns, so the order is part of the model.
    - Python [float]s are reached through the interface [PyFloat].
      [binary64] is the instance the interpreter runs (IEEE 754 double
      precision, the kernel's primitive floats); [Q] is the exact
      reading, in which no operation rounds.  What a proof needs of
      the numbers is stated as a class of laws ([FloatOrder],
      [FloatUnit], [FloatSum]) and established for both instances.
    - Random draws ([random.random], [random.choice], [np.random.beta])
      and the clock are arguments of the methods that consume them. *)

From Stdlib Require Import List String Ascii Bool ZArith QArith Lia Lqa Floats.
Import ListNotations.
Local Open Scope string_scope.
Local Open Scope Z_scope.

Set Implicit Arguments.

(* ------------------------------------------------------------------ *)
(** ** Exceptions and outcomes *)

Inductive exn : Type :=
| KeyError
| ValueError
| ZeroDivisionError
| IndexError.

Inductive outcome (S A : Type) : Type :=
| Ok (a : A) (s : S)
| Raise (e : exn) (s : S).

Arguments Ok {S A} a s.
Arguments Raise {S A} e s.

Definition state_of {S A} (o : outcome S A) : S :=
  match o with Ok _ s => s | Raise _ s => s end.

Definition value_of {S A} (o : outcome S A) : option A :=
  match o with Ok a _ => Some a | Raise _ _ => None end.

Definition returns {S A} (o : outcome S A) : bool :=
  match o with Ok _ _ => true | Raise _ _ => false end.

(** A method body: state in, outcome out. *)
Definition M (S A : Type) : Type := S -> outcome S A.

Definition ret {S A} (a : A) : M S A := fun s => Ok a s.

Definition bind {S A B} (m : M S A) (k : A -> M S B) : M S B :=
  fun s => match m s with
           | Ok a s' => k a s'
           | Raise e s' => Raise e s'
           end.

Definition raise {S A} (e : exn) : M S A := fun s => Raise e s.

Definition gets {S A} (f : S -> A) : M S A := fun s => Ok (f s) s.

Definition modify {S} (f : S -> S) : M S unit := fun s => Ok tt (f s).

Declare Scope py_scope.
Delimit Scope py_scope with py.
Notation "x <- m ;; k" := (bind m (fun x => k))
  (at level 61, m at next level, right associativity) : py_scope.
Notation "m ;; k" := (bind m (fun _ => k))
  (at level 61, right associativity) : py_scope.

(* ------------------------------------------------------------------ *)
(** ** Python dictionaries with string keys *)

Definition dict (V : Type) : Type := list (string * V).

Fixpoint dict_get {V} (d : dict V) (k : string) : option V :=
  match d with
  | [] => None
  | (k', v) :: d' => if String.eqb k' k then Some v else dict_get d' k
  end.

(** [k in d] *)
Definition dict_mem {V} (d : dict V) (k : string) : bool :=
  match dict_get d k with Some _ => true | None => false end.

(** [d[k] = v]: an existing key keeps its place, a new one goes last. *)
Fixpoint dict_set {V} (d : dict V) (k : string) (v : V) : dict V :=
  match d with
  | [] => [(k, v)]
  | (k', v') :: d' =>
      if String.eqb k' k then (k', v) :: d' else (k', v') :: dict_set d' k v
  end.

Definition dict_keys {V} (d : dict V) : list string := map fst d.
Definition dict_values {V} (d : dict V) : list V := map snd d.

(** [{k: f(k) for k in ks}] *)
Definition dict_comp {V} (ks : list string) (f : string -> V) : dict V :=
  fold_left (fun d k => dict_set d k (f k)) ks [].

(** [d[k]], raising [KeyError] on a missing key. *)
Definition getitem {S V} (d : dict V) (k : string) : M S V :=
  match dict_get d k with
  | Some v => ret v
  | None => raise KeyError
  end.

(** [str(b)] inside an f-string. *)
Definition str_bool (b : bool) : string := if b then "True" else "False".

(* ------------------------------------------------------------------ *)
(** ** Floats *)

Class PyFloat (F : Type) : Type := {
  f0 : F;                      (* 0.0 *)
  f1 : F;                      (* 1.0, and the int 1 once added to a float *)
  fhalf : F;                   (* 0.5 *)
  fadd : F -> F -> F;
  fsub : F -> F -> F;
  fmul : F -> F -> F;
  fdiv : F -> F -> F;          (* the quotient for a non-zero divisor *)
  flt : F -> F -> bool;        (* x < y; x > y is [flt y x] *)
  fle : F -> F -> bool;
  feq : F -> F -> bool
}.

Definition binary64 : Type := PrimFloat.float.

#[export] Instance PyFloat_binary64 : PyFloat binary64 := {|
  f0 := 0%float;
  f1 := 1%float;
  fhalf := 0.5%float;
  fadd := PrimFloat.add;
  fsub := PrimFloat.sub;
  fmul := PrimFloat.mul;
  fdiv := PrimFloat.div;
  flt := PrimFloat.ltb;
  fle := PrimFloat.leb;
  feq := PrimFloat.eqb
|}.

#[export] Instance PyFloat_Q : PyFloat Q := {|
  f0 := 0%Q;
  f1 := 1%Q;
  fhalf := (1 # 2)%Q;
  fadd := Qplus;
  fsub := Qminus;
  fmul := Qmult;
  fdiv := Qdiv;
  flt := fun x y => negb (Qle_bool y x);
  fle := Qle_bool;
  feq := Qeq_bool
|}.

(** [x > y] *)
Definition fgt {F} `{PyFloat F} (x y : F) : bool := flt y x.

(** The loop of the built-in [max]: the first item is the candidate, a
    later item replaces it only when it compares strictly greater. *)
Fixpoint max_loop {A} (gt : A -> A -> bool) (best : A) (rest : list A) : A :=
  match rest with
  | [] => best
  | x :: rest' => max_loop gt (if gt x best then x else best) rest'
  end.

(** [max(l)]; [None] stands for the [ValueError] on an empty argument. *)
Definition py_max {A} (gt : A -> A -> bool) (l : list A) : option A :=
  match l with
  | [] => None
  | x :: rest => Some (max_loop gt x rest)
  end.

(** [max(l, key=key)]: items are compared by their keys. *)
Definition py_max_key {A B} (gt : B -> B -> bool) (key : A -> B)
    (l : list A) : option A :=
  py_max (fun x y => gt (key x) (key y)) l.

(** [>] on the results of [dict.get]; both sides are floats whenever the
    looked-up names are keys of the dictionary. *)
Definition opt_gt {F} `{PyFloat F} (x y : option F) : bool :=
  match x, y with
  | Some a, Some b => fgt a b
  | _, _ => false
  end.

(** [random.choice(l)] with the drawn index [i]; [IndexError] on an
    empty sequence. *)
Definition random_choice {S A} (i : nat) (l : list A) : M S A :=
  match nth_error l (i mod List.length l)%nat with
  | Some a => ret a
  | None => raise IndexError
  end.

(** [max(l)] as a statement: [ValueError] on an empty sequence. *)
Definition max_or_raise {S A} (m : option A) : M S A :=
  match m with
  | Some a => ret a
  | None => raise ValueError
  end.

(** Values of a result dictionary that mixes counters and floats. *)
Inductive pyval (F : Type) : Type :=
| VInt (z : Z)
| VFloat (x : F).

Arguments VInt {F} z.
Arguments VFloat {F} x.

(* ------------------------------------------------------------------ *)
(** ** q_learning.py *)

Module QLearningScheduler.
Section Agent.
Context {F : Type} `{PyFloat F}.
Local Open Scope py_scope.

Record agent : Type := mk_agent {
  alpha : F;
  gamma : F;
  epsilon : F;
  actions : list string;
  q_table : dict (dict F);
  total_updates : Z;
  episode_rewards : list F
}.

(** The dictionary [to_dict] builds and [load_from_dict] reads; a field
    is [None] when the key is missing from the dictionary. *)
Record snapshot : Type := mk_snapshot {
  snap_q_table : option (dict (dict F));
  snap_alpha : option F;
  snap_gamma : option F;
  snap_epsilon : option F;
  snap_total_updates : option Z;
  snap_actions : option (list string);
  snap_last_updated : option string
}.

Definition default_actions : list string :=
  ["wait_1d"; "wait_3d"; "wait_5d"; "wait_7d"; "wait_10d"; "wait_14d"].

Definition set_q_table (s : agent) (t : dict (dict F)) : agent :=
  mk_agent (alpha s) (gamma s) (epsilon s) (actions s) t
           (total_updates s) (episode_rewards s).

Definition set_total_updates (s : agent) (n : Z) : agent :=
  mk_agent (alpha s) (gamma s) (epsilon s) (actions s) (q_table s)
           n (episode_rewards s).

(** [data.get(key, default)] *)
Definition get_or {A} (o : option A) (default : A) : A :=
  match o with Some a => a | None => default end.

Definition load_from_dict (data : snapshot) : M agent unit :=
  modify (fun s =>
    mk_agent (get_or (snap_alpha data) (alpha s))
             (get_or (snap_gamma data) (gamma s))
             (get_or (snap_epsilon data) (epsilon s))
             (get_or (snap_actions data) (actions s))
             (get_or (snap_q_table data) [])
             (get_or (snap_total_updates data) 0)
             (episode_rewards s)).

(** A dictionary is true when it has at least one key. *)
Definition snapshot_truthy (d : snapshot) : bool :=
  match snap_q_table d, snap_alpha d, snap_gamma d, snap_epsilon d,
        snap_total_updates d, snap_actions d, snap_last_updated d with
  | None, None, None, None, None, None, None => false
  | _, _, _, _, _, _, _ => true
  end.

Definition __init__ (learning_rate discount_factor eps : F)
    (load : option snapshot) : agent :=
  let self := mk_agent learning_rate discount_factor eps default_actions
                       [] 0 [] in
  match load with
  | Some data =>
      if snapshot_truthy data then state_of (load_from_dict data self)
      else self
  | None => self
  end.

Definition _get_state_key (days_since_applied : Z) (company_type : string)
    (has_connection : bool) : string :=
  let day_bucket :=
    if days_since_applied <=? 2 then "0-2"
    else if days_since_applied <=? 5 then "3-5"
    else if days_since_applied <=? 10 then "6-10"
    else "11+" in
  day_bucket ++ "_" ++ company_type ++ "_" ++ str_bool has_connection.

(** [if key not in self.q_table: self.q_table[key] = {a: 0.0 for a in
    self.actions}], the block every method below starts with. *)
Definition init_state (state_key : string) : M agent unit :=
  modify (fun s =>
    if dict_mem (q_table s) state_key then s
    else set_q_table s
           (dict_set (q_table s) state_key
                     (dict_comp (actions s) (fun _ => f0)))).

Definition get_action (days_since_applied : Z) (company_type : string)
    (has_connection : bool) (explore : bool)
    (u : F) (pick : nat) : M agent string :=
  let state_key :=
    _get_state_key days_since_applied company_type has_connection in
  init_state state_key ;;
  eps <- gets epsilon ;;
  if explore && flt u eps then
    acts <- gets actions ;;
    random_choice pick acts
  else
    qt <- gets q_table ;;
    q_values <- getitem qt state_key ;;
    max_q <- max_or_raise (py_max fgt (dict_values q_values)) ;;
    let best_actions :=
      map fst (filter (fun aq => feq (snd aq) max_q) q_values) in
    random_choice pick best_actions.

Definition update (state : Z * string * bool) (action : string)
    (reward : F) (next_state : option (Z * string * bool)) : M agent unit :=
  let '(d, c, h) := state in
  let state_key := _get_state_key d c h in
  init_state state_key ;;
  qt <- gets q_table ;;
  row <- getitem qt state_key ;;
  current_q <- getitem row action ;;
  max_next_q <-
    match next_state with
    | None => ret f0
    | Some (d', c', h') =>
        let next_state_key := _get_state_key d' c' h' in
        init_state next_state_key ;;
        qt' <- gets q_table ;;
        next_row <- getitem qt' next_state_key ;;
        max_or_raise (py_max fgt (dict_values next_row))
    end ;;
  alpha_ <- gets alpha ;;
  gamma_ <- gets gamma ;;
  let new_q :=
    fadd current_q
         (fmul alpha_ (fsub (fadd reward (fmul gamma_ max_next_q)) current_q)) in
  qt2 <- gets q_table ;;
  row2 <- getitem qt2 state_key ;;
  modify (fun s => set_q_table s (dict_set qt2 state_key
                                           (dict_set row2 action new_q))) ;;
  modify (fun s => set_total_updates s (total_updates s + 1)).

Definition get_best_action (days_since_applied : Z) (company_type : string)
    (has_connection : bool) : M agent (string * F) :=
  let state_key :=
    _get_state_key days_since_applied company_type has_connection in
  init_state state_key ;;
  qt <- gets q_table ;;
  q_values <- getitem qt state_key ;;
  best_action <-
    max_or_raise (py_max_key opt_gt (dict_get q_values) (dict_keys q_values)) ;;
  best_q <- getitem q_values best_action ;;
  ret (best_action, best_q).

(** [np.mean], [np.max] and [np.min] are NumPy's; the summary passes
    them the flattened table. *)
Definition get_q_table_summary (np_mean np_max np_min : list F -> F)
    (s : agent) : dict (pyval F) :=
  match q_table s with
  | [] =>
      [("total_states", VInt 0);
       ("total_updates", VInt (total_updates s));
       ("avg_q_value", VFloat f0)]
  | _ :: _ =>
      let all_q_values := flat_map (fun row => dict_values row)
                                   (dict_values (q_table s)) in
      let guarded (f : list F -> F) :=
        match all_q_values with [] => f0 | _ :: _ => f all_q_values end in
      [("total_states", VInt (Z.of_nat (List.length (q_table s))));
       ("total_updates", VInt (total_updates s));
       ("avg_q_value", VFloat (guarded np_mean));
       ("max_q_value", VFloat (guarded np_max));
       ("min_q_value", VFloat (guarded np_min))]
  end.

(** [now] is [datetime.utcnow().isoformat()]. *)
Definition to_dict (now : string) (s : agent) : snapshot :=
  mk_snapshot (Some (q_table s)) (Some (alpha s)) (Some (gamma s))
              (Some (epsilon s)) (Some (total_updates s)) (Some (actions s))
              (Some now).

End Agent.
Arguments agent F : clear implicits.
Arguments snapshot F : clear implicits.
End QLearningScheduler.

(* ------------------------------------------------------------------ *)
(** ** Strings *)

(** [str.lower] on ASCII text: the letters [A]-[Z] map to [a]-[z], every
    other byte is kept. *)
Definition lower_ascii (c : ascii) : ascii :=
  let n := nat_of_ascii c in
  if ((65 <=? n) && (n <=? 90))%nat then ascii_of_nat (n + 32) else c.

Fixpoint lower (s : string) : string :=
  match s with
  | EmptyString => EmptyString
  | String c s' => String (lower_ascii c) (lower s')
  end.

(** [word in text]: [word] occurs in [text] as a contiguous substring. *)
Fixpoint contains (word text : string) : bool :=
  if String.prefix word text then true
  else match text with
       | EmptyString => false
       | String _ text' => contains word text'
       end.

(** [any(word in text for word in words)] *)
Definition any_in (words : list string) (text : string) : bool :=
  existsb (fun word => contains word text) words.

(* ------------------------------------------------------------------ *)
(** ** thompson_sampling.py *)

Module ThompsonSamplingMessenger.
Section Agent.
Context {F : Type} `{PyFloat F}.
Local Open Scope py_scope.

(** [{'alpha': a, 'beta': b}] *)
Record params : Type := mk_params {
  alpha : F;
  beta : F
}.

(** One entry of [arm_history]. *)
Record selection : Type := mk_selection {
  sel_context : string;
  sel_arm : string;
  sel_samples : dict F
}.

Record agent : Type := mk_agent {
  arms : list string;
  distributions : dict (dict params);
  total_selections : Z;
  total_successes : Z;
  arm_history : list selection
}.

Record snapshot : Type := mk_snapshot {
  snap_distributions : option (dict (dict params));
  snap_arms : option (list string);
  snap_total_selections : option Z;
  snap_total_successes : option Z;
  snap_last_updated : option string
}.

Definition default_arms : list string :=
  ["formal"; "casual"; "connection_focused"].

Definition set_distributions (s : agent) (d : dict (dict params)) : agent :=
  mk_agent (arms s) d (total_selections s) (total_successes s)
           (arm_history s).

Definition get_or {A} (o : option A) (default : A) : A :=
  match o with Some a => a | None => default end.

Definition load_from_dict (data : snapshot) : M agent unit :=
  modify (fun s =>
    mk_agent (get_or (snap_arms data) (arms s))
             (get_or (snap_distributions data) [])
             (get_or (snap_total_selections data) 0)
             (get_or (snap_total_successes data) 0)
             (arm_history s)).

Definition snapshot_truthy (d : snapshot) : bool :=
  match snap_distributions d, snap_arms d, snap_total_selections d,
        snap_total_successes d, snap_last_updated d with
  | None, None, None, None, None => false
  | _, _, _, _, _ => true
  end.

Definition __init__ (load : option snapshot) : agent :=
  let self := mk_agent default_arms [] 0 0 [] in
  match load with
  | Some data =>
      if snapshot_truthy data then state_of (load_from_dict data self)
      else self
  | None => self
  end.

Definition recruiter_words : list string := ["recruit"; "talent"; "hr"].
Definition executive_words : list string :=
  ["vp"; "vice president"; "chief"; "head"].
Definition director_words : list string := ["director"; "lead"].

Definition title_category (contact_title : string) : string :=
  let title_lower := lower contact_title in
  if any_in recruiter_words title_lower then "recruiter"
  else if any_in executive_words title_lower then "executive"
  else if any_in director_words title_lower then "director"
  else "manager".

Definition _get_context_key (contact_title company_culture : string)
    (has_connection : bool) : string :=
  title_category contact_title ++ "_" ++ company_culture ++ "_"
    ++ str_bool has_connection.

(** [if key not in self.distributions: self.distributions[key] =
    {arm: {'alpha': 1.0, 'beta': 1.0} for arm in self.arms}] *)
Definition init_context (context_key : string) : M agent unit :=
  modify (fun s =>
    if dict_mem (distributions s) context_key then s
    else set_distributions s
           (dict_set (distributions s) context_key
                     (dict_comp (arms s) (fun _ => mk_params f1 f1)))).

(** [np.random.beta(a, b)] returning the draw [x]; NumPy refuses a
    parameter that is [<= 0] with [ValueError]. *)
Definition np_random_beta (x a b : F) : M agent F :=
  if fle a f0 || fle b f0 then raise ValueError else ret x.

(** The sampling loop of [select_arm]; [draw i] is the [i]-th draw. *)
Fixpoint sample_arms (context_key : string) (draw : nat -> F) (i : nat)
    (todo : list string) (samples : dict F) : M agent (dict F) :=
  match todo with
  | [] => ret samples
  | arm :: todo' =>
      ds <- gets distributions ;;
      row <- getitem ds context_key ;;
      p <- getitem row arm ;;
      sample <- np_random_beta (draw i) (alpha p) (beta p) ;;
      sample_arms context_key draw (S i) todo' (dict_set samples arm sample)
  end.

Definition select_arm (contact_title company_culture : string)
    (has_connection : bool) (draw : nat -> F) : M agent string :=
  let context_key :=
    _get_context_key contact_title company_culture has_connection in
  init_context context_key ;;
  arms_ <- gets arms ;;
  samples <- sample_arms context_key draw 0 arms_ [] ;;
  selected_arm <-
    max_or_raise (py_max_key opt_gt (dict_get samples) (dict_keys samples)) ;;
  modify (fun s =>
    mk_agent (arms s) (distributions s) (total_selections s + 1)
             (total_successes s)
             (arm_history s
                ++ [mk_selection context_key selected_arm samples])) ;;
  ret selected_arm.

(** [self.distributions[key][arm] = p] *)
Definition store (context_key arm : string) (p : params) : M agent unit :=
  ds <- gets distributions ;;
  row <- getitem ds context_key ;;
  modify (fun s =>
    set_distributions s (dict_set ds context_key (dict_set row arm p))).

Definition update (contact_title company_culture : string)
    (has_connection : bool) (arm : string) (got_response : bool)
    : M agent unit :=
  let context_key :=
    _get_context_key contact_title company_culture has_connection in
  init_context context_key ;;
  ds <- gets distributions ;;
  row <- getitem ds context_key ;;
  p <- getitem row arm ;;
  if got_response then
    store context_key arm (mk_params (fadd (alpha p) f1) (beta p)) ;;
    modify (fun s =>
      mk_agent (arms s) (distributions s) (total_selections s)
               (total_successes s + 1) (arm_history s))
  else
    store context_key arm (mk_params (alpha p) (fadd (beta p) f1)).

(** [x / y] on floats: [ZeroDivisionError] when the divisor is zero. *)
Definition py_div (x y : F) : M agent F :=
  if feq y f0 then raise ZeroDivisionError else ret (fdiv x y).

(** The loop of [get_arm_probabilities]. *)
Fixpoint mean_arms (context_key : string) (todo : list string)
    (probabilities : dict F) : M agent (dict F) :=
  match todo with
  | [] => ret probabilities
  | arm :: todo' =>
      ds <- gets distributions ;;
      row <- getitem ds context_key ;;
      p <- getitem row arm ;;
      prob <- py_div (alpha p) (fadd (alpha p) (beta p)) ;;
      mean_arms context_key todo' (dict_set probabilities arm prob)
  end.

Definition get_arm_probabilities (contact_title company_culture : string)
    (has_connection : bool) : M agent (dict F) :=
  let context_key :=
    _get_context_key contact_title company_culture has_connection in
  ds <- gets distributions ;;
  arms_ <- gets arms ;;
  if negb (dict_mem ds context_key) then
    ret (dict_comp arms_ (fun _ => fhalf))
  else
    mean_arms context_key arms_ [].

Definition get_best_arm (contact_title company_culture : string)
    (has_connection : bool) : M agent (string * F) :=
  probs <- get_arm_probabilities contact_title company_culture
                                 has_connection ;;
  best_arm <-
    max_or_raise (py_max_key opt_gt (dict_get probs) (dict_keys probs)) ;;
  best_prob <- getitem probs best_arm ;;
  ret (best_arm, best_prob).

Definition to_dict (now : string) (s : agent) : snapshot :=
  mk_snapshot (Some (distributions s)) (Some (arms s))
              (Some (total_selections s)) (Some (total_successes s))
              (Some now).

End Agent.
Arguments agent F : clear implicits.
Arguments snapshot F : clear implicits.
Arguments params F : clear implicits.
Arguments selection F : clear implicits.
End ThompsonSamplingMessenger.

(* ================================================================== *)
(** * Vocabulary of the properties *)

Module QL := QLearningScheduler.
Module TS := ThompsonSamplingMessenger.

(** What the proofs about [max] ask of [<]: a strict order.  It holds
    of binary64 (a NaN compares false with everything) and of [Q]. *)
Class FloatOrder (F : Type) `{PyFloat F} : Prop := {
  flt_irrefl : forall x : F, flt x x = false;
  flt_trans : forall x y z : F,
    flt x y = true -> flt y z = true -> flt x z = true
}.
Arguments FloatOrder F {_}.

(** What the proofs about the Beta parameters ask of [1.0] and of
    adding it, on values that are at least [1.0]. *)
Class FloatUnit (F : Type) `{PyFloat F} : Prop := {
  one_le_one : fle f1 f1 = true;
  one_le_pos : forall x : F, fle f1 x = true -> fle x f0 = false;
  one_le_refl : forall x : F, fle f1 x = true -> fle x x = true;
  one_le_succ : forall x : F, fle f1 x = true -> fle f1 (fadd x f1) = true;
  le_succ : forall x : F, fle f1 x = true -> fle x (fadd x f1) = true
}.
Arguments FloatUnit F {_}.

Section Vocabulary.
Context {F : Type} `{PyFloat F}.

(** A row that has an entry for every name of [names]. *)
Definition full_row {V} (names : list string) (row : dict V) : Prop :=
  forall a, In a names -> exists v, dict_get row a = Some v.

(** The scheduler's table invariant: the action list is not empty, no
    row is partial and, as in any dictionary, no row lists a key twice. *)
Definition ql_ok (s : QL.agent F) : Prop :=
  QL.actions s <> [] /\
  forall k row, dict_get (QL.q_table s) k = Some row ->
                full_row (QL.actions s) row /\ NoDup (dict_keys row).

(** The schedulers a program can hold: a fresh one, the one a method
    call leaves behind (whether it returned or raised), and one
    rebuilt from the dictionary a reachable one serialised to. *)
Inductive ql_reachable : QL.agent F -> Prop :=
| ql_fresh a g e :
    ql_reachable (QL.__init__ a g e None)
| ql_after_get_action s d c h explore u pick :
    ql_reachable s ->
    ql_reachable (state_of (QL.get_action d c h explore u pick s))
| ql_after_update s st a r nxt :
    ql_reachable s ->
    ql_reachable (state_of (QL.update st a r nxt s))
| ql_after_get_best_action s d c h :
    ql_reachable s ->
    ql_reachable (state_of (QL.get_best_action d c h s))
| ql_reloaded s now a g e :
    ql_reachable s ->
    ql_reachable (QL.__init__ a g e (Some (QL.to_dict now s))).

(** One argument list of [QLearningScheduler.update]. *)
Record ql_call : Type := mk_ql_call {
  call_state : Z * string * bool;
  call_action : string;
  call_reward : F;
  call_next_state : option (Z * string * bool)
}.

(** A sequence of [update] calls on one scheduler; a call that raises
    leaves the state it reached and the run goes on. *)
Definition ql_run (calls : list ql_call) (s : QL.agent F) : QL.agent F :=
  fold_left
    (fun s c =>
       state_of (QL.update (call_state c) (call_action c) (call_reward c)
                           (call_next_state c) s))
    calls s.

(** [self.distributions[key][arm]], when both keys are present. *)
Definition ts_entry (s : TS.agent F) (key arm : string)
    : option (TS.params F) :=
  match dict_get (TS.distributions s) key with
  | Some row => dict_get row arm
  | None => None
  end.

(** [alpha >= 1 and beta >= 1] *)
Definition params_ge_one (p : TS.params F) : Prop :=
  fle f1 (TS.alpha p) = true /\ fle f1 (TS.beta p) = true.

(** [q] is nowhere below [p]. *)
Definition params_le (p q : TS.params F) : Prop :=
  fle (TS.alpha p) (TS.alpha q) = true /\ fle (TS.beta p) (TS.beta q) = true.

(** The bandit once the row of [key] is there: the state the lazy
    initialisation at the head of [select_arm] and [update] leaves. *)
Definition with_context (key : string) (s : TS.agent F) : TS.agent F :=
  state_of (TS.init_context key s).

(** [p] after one more success, or one more failure. *)
Definition bump (got_response : bool) (p : TS.params F) : TS.params F :=
  if got_response then TS.mk_params (fadd (TS.alpha p) f1) (TS.beta p)
  else TS.mk_params (TS.alpha p) (fadd (TS.beta p) f1).

(** The bandit's table invariant: the arm list is not empty, every row
    has every arm, and every parameter is at least 1. *)
Definition ts_ok (s : TS.agent F) : Prop :=
  TS.arms s <> [] /\
  (forall k arm, dict_mem (TS.distributions s) k = true ->
                 In arm (TS.arms s) -> exists p, ts_entry s k arm = Some p) /\
  (forall k arm p, ts_entry s k arm = Some p -> params_ge_one p).

(** One operation on a bandit: a method call, returning or raising,
    or a rebuild from the bandit's own serialised form. *)
Inductive ts_step : TS.agent F -> TS.agent F -> Prop :=
| ts_step_select s t c h draw :
    ts_step s (state_of (TS.select_arm t c h draw s))
| ts_step_update s t c h arm got :
    ts_step s (state_of (TS.update t c h arm got s))
| ts_step_probabilities s t c h :
    ts_step s (state_of (TS.get_arm_probabilities t c h s))
| ts_step_best_arm s t c h :
    ts_step s (state_of (TS.get_best_arm t c h s))
| ts_step_reload s now :
    ts_step s (TS.__init__ (Some (TS.to_dict now s))).

Inductive ts_reachable : TS.agent F -> Prop :=
| ts_fresh : ts_reachable (TS.__init__ None)
| ts_next s s' : ts_reachable s -> ts_step s s' -> ts_reachable s'.

(** One argument list of [ThompsonSamplingMessenger.update]. *)
Record ts_call : Type := mk_ts_call {
  call_title : string;
  call_culture : string;
  call_connection : bool;
  call_arm : string;
  call_got_response : bool
}.

Definition ts_run (calls : list ts_call) (s : TS.agent F) : TS.agent F :=
  fold_left
    (fun s c =>
       state_of (TS.update (call_title c) (call_culture c)
                           (call_connection c) (call_arm c)
                           (call_got_response c) s))
    calls s.

End Vocabulary.

(** A binary64 bandit after one call,
    [update("Recruiter", "casual", True, "casual", True)]. *)
Definition ts_after_one : TS.agent binary64 :=
  state_of (TS.update "Recruiter" "casual" true "casual" true
                      (TS.__init__ None)).

(** Python's [0.9]: the double nearest to nine tenths. *)
Definition py_0_9 : binary64 := 0x1.ccccccccccccdp-1%float.

(** [1.0] as sign, mantissa and exponent: [2^52 * 2^-52]. *)
Definition SFone64 : spec_float := S754_finite false 4503599627370496 (-52).

(** [r] is [+inf], or a positive finite float whose exponent is above
    [e], or is [e] with a mantissa of at least [q]. *)
Definition at_least (e q : Z) (r : spec_float) : Prop :=
  r = S754_infinity false \/
  exists mf ef, r = S754_finite false mf ef /\
                (e < ef \/ (ef = e /\ q <= Zpos mf)).

(* ================================================================== *)
(** * Vocabulary of the further properties *)

(** What dividing by [alpha + beta] asks of the sum of two values that
    are at least [1.0]: it is not zero. *)
Class FloatSum (F : Type) `{PyFloat F} : Prop := {
  sum_nonzero : forall x y : F,
    fle f1 x = true -> fle f1 y = true -> feq (fadd x y) f0 = false
}.
Arguments FloatSum F {_}.

Section MoreVocabulary.
Context {F : Type} `{PyFloat F}.

(** The bucket [_get_state_key] puts a number of days in. *)
Definition day_bucket (days : Z) : string :=
  if days <=? 2 then "0-2"
  else if days <=? 5 then "3-5"
  else if days <=? 10 then "6-10"
  else "11+".

(** [_get_state_key] applied to a state triple. *)
Definition state_key_of (state : Z * string * bool) : string :=
  let '(d, c, h) := state in QL._get_state_key d c h.

(** [self.q_table[key][action]], when both keys are present. *)
Definition ql_entry (s : QL.agent F) (key action : string) : option F :=
  match dict_get (QL.q_table s) key with
  | Some row => dict_get row action
  | None => None
  end.

(** The scheduler once the row of [key] is there: the state the lazy
    initialisation at the head of every method leaves. *)
Definition with_state (key : string) (s : QL.agent F) : QL.agent F :=
  state_of (QL.init_state key s).

(** The scheduler once the rows [update] needs are there. *)
Definition with_states (key : string) (next_state : option (Z * string * bool))
    (s : QL.agent F) : QL.agent F :=
  match next_state with
  | None => with_state key s
  | Some n => with_state (state_key_of n) (with_state key s)
  end.

(** [max_next_q] of [update]: 0.0 for a terminal step, else the [max]
    of the next state's row; [None] when that row is empty. *)
Definition ql_max_next (key : string) (next_state : option (Z * string * bool))
    (s : QL.agent F) : option F :=
  match next_state with
  | None => Some f0
  | Some n =>
      match dict_get (QL.q_table (with_states key next_state s))
                     (state_key_of n) with
      | Some row => py_max fgt (dict_values row)
      | None => None
      end
  end.

(** [q + alpha * (reward + gamma * max_next_q - q)] *)
Definition td_update (s : QL.agent F) (q reward max_next_q : F) : F :=
  fadd q (fmul (QL.alpha s)
               (fsub (fadd reward (fmul (QL.gamma s) max_next_q)) q)).

(** A scheduler whose actions are the standard six and whose rows
    have no other key. *)
Definition ql_within (s : QL.agent F) : Prop :=
  QL.actions s = QL.default_actions /\
  forall k a q, ql_entry s k a = Some q -> In a QL.default_actions.

(** [action in self.actions] for the standard actions. *)
Definition known_action (action : string) : bool :=
  existsb (String.eqb action) QL.default_actions.

(** The dictionary the sampling loop of [select_arm] builds: the
    [i]-th draw under the [i]-th arm. *)
Fixpoint samples_of (draw : nat -> F) (i : nat) (todo : list string)
    (samples : dict F) : dict F :=
  match todo with
  | [] => samples
  | arm :: todo' =>
      samples_of draw (S i) todo' (dict_set samples arm (draw i))
  end.

(** [alpha / (alpha + beta)] *)
Definition beta_mean (p : TS.params F) : F :=
  fdiv (TS.alpha p) (fadd (TS.alpha p) (TS.beta p)).

(** The estimate for [arm] under the context [key]: the mean of the
    arm's entry, and 0.5 when there is none. *)
Definition arm_mean (s : TS.agent F) (key arm : string) : F :=
  match ts_entry s key arm with
  | Some p => beta_mean p
  | None => fhalf
  end.

(** A bandit whose arms are the standard three, whose rows have no
    other key and whose history names no other arm. *)
Definition ts_within (s : TS.agent F) : Prop :=
  TS.arms s = TS.default_arms /\
  (forall k a p, ts_entry s k a = Some p -> In a TS.default_arms) /\
  (forall e, In e (TS.arm_history s) -> In (TS.sel_arm e) TS.default_arms).

(** [arm in self.arms] for the standard arms. *)
Definition known_arm (arm : string) : bool :=
  existsb (String.eqb arm) TS.default_arms.

(** The bandits of one session: a fresh one and what method calls,
    returning or raising, make of it.  Nothing is reloaded. *)
Inductive ts_session : TS.agent F -> Prop :=
| ts_session_fresh : ts_session (TS.__init__ None)
| ts_session_select s t c h draw :
    ts_session s -> ts_session (state_of (TS.select_arm t c h draw s))
| ts_session_update s t c h arm got :
    ts_session s -> ts_session (state_of (TS.update t c h arm got s))
| ts_session_probabilities s t c h :
    ts_session s -> ts_session (state_of (TS.get_arm_probabilities t c h s))
| ts_session_best_arm s t c h :
    ts_session s -> ts_session (state_of (TS.get_best_arm t c h s)).

(** The counting loop of [get_statistics]:
    [for entry in self.arm_history: arm_counts[entry['arm']] += 1]. *)
Fixpoint count_arms (history : list (TS.selection F)) (arm_counts : dict Z)
    : M (TS.agent F) (dict Z) :=
  match history with
  | [] => ret arm_counts
  | entry :: history' =>
      n <- getitem arm_counts (TS.sel_arm entry) ;;
      count_arms history' (dict_set arm_counts (TS.sel_arm entry) (n + 1))
  end%py.

(** [arm_counts] of [get_statistics]: a zero for every arm, then the
    counting loop over [arm_history]. *)
Definition arm_counts : M (TS.agent F) (dict Z) :=
  (arms_ <- gets TS.arms ;;
   history <- gets TS.arm_history ;;
   count_arms history (dict_comp arms_ (fun _ => 0)))%py.

(** How many entries of a history name [arm]. *)
Definition selections_of (arm : string) (history : list (TS.selection F))
    : Z :=
  Z.of_nat (List.length
              (filter (fun e => String.eqb (TS.sel_arm e) arm) history)).

(** The calls of a sequence that name a standard arm and report a
    response. *)
Definition counted_responses (calls : list ts_call) : Z :=
  Z.of_nat (List.length
              (filter (fun c => known_arm (call_arm c)
                                && call_got_response c) calls)).

(** What one session records of its selections. *)
Definition ts_history_ok (s : TS.agent F) : Prop :=
  TS.total_selections s = Z.of_nat (List.length (TS.arm_history s)) /\
  forall e, In e (TS.arm_history s) ->
    dict_mem (TS.distributions s) (TS.sel_context e) = true /\
    dict_keys (TS.sel_samples e) = TS.default_arms /\
    py_max_key opt_gt (dict_get (TS.sel_samples e))
               (dict_keys (TS.sel_samples e)) = Some (TS.sel_arm e).

(** The standard actions, and every row listing them in their order. *)
Definition ql_rows (s : QL.agent F) : Prop :=
  QL.actions s = QL.default_actions /\
  Forall (fun kr => dict_keys (snd kr) = QL.default_actions) (QL.q_table s).

(** [all_q_values] of [get_q_table_summary]: the rows' values, row
    after row. *)
Definition all_q_values (s : QL.agent F) : list F :=
  flat_map (fun row => dict_values row) (dict_values (QL.q_table s)).

End MoreVocabulary.

(** A binary64 scheduler after one call,
    [update((4, "startup", True), "wait_5d", 10, None)]. *)
Definition ql_after_one : QL.agent binary64 :=
  state_of (QL.update (4, "startup", true) "wait_5d" 10%float None
                      (QL.__init__ 0.5%float py_0_9 0.125%float None)).

(** A binary64 scheduler that was given a NaN as reward,
    [update((4, "startup", True), "wait_1d", nan, None)]. *)
Definition ql_after_nan : QL.agent binary64 :=
  state_of (QL.update (4, "startup", true) "wait_1d" PrimFloat.nan None
                      (QL.__init__ 0.5%float py_0_9 0.125%float None)).

(** Three draws, one for each arm. *)
Definition ts_draws (i : nat) : binary64 :=
  match i with
  | O => 0.25%float
  | S O => 0.75%float
  | _ => 0.5%float
  end.

(** The bandit [ts_after_one] after one more call,
    [select_arm("Recruiter", "casual", True)]. *)
Definition ts_after_two : TS.agent binary64 :=
  state_of (TS.select_arm "Recruiter" "casual" true ts_draws ts_after_one).

(** Three [update] calls: a response, an unknown arm, no response. *)
Definition ts_three_calls : list ts_call :=
  [mk_ts_call "Recruiter" "casual" true "casual" true;
   mk_ts_call "Recruiter" "casual" true "friendly" true;
   mk_ts_call "VP Data" "formal" false "formal" false].

(** A stand-in for a NumPy reduction: the first value, 0.0 for none. *)
Definition first_or_zero (l : list binary64) : binary64 :=
  match l with
  | [] => 0%float
  | x :: _ => x
  end.

(* ================================================================== *)
(** * Properties *)

Ltac run_py :=
  unfold bind, gets, modify, ret, raise, getitem, max_or_raise in *.

(* ------------------------------------------------------------------ *)
(** ** Dictionaries *)

Section DictFacts.
Context {V : Type}.
Implicit Types (d : dict V) (k : string) (v : V).

Lemma dict_get_set_same d k v : dict_get (dict_set d k v) k = Some v.
Proof.
  induction d as [|[k' v'] d IH]; simpl.
  - now rewrite String.eqb_refl.
  - destruct (String.eqb k' k) eqn:E; simpl; rewrite E; auto.
Qed.

Lemma dict_get_set_other d k k' v :
  k <> k' -> dict_get (dict_set d k v) k' = dict_get d k'.
Proof.
  intros Hne. induction d as [|[k0 v0] d IH]; simpl.
  - destruct (String.eqb_spec k k'); congruence.
  - destruct (String.eqb_spec k0 k) as [->|Hk]; simpl.
    + destruct (String.eqb_spec k k'); congruence.
    + now rewrite IH.
Qed.

Lemma dict_get_set d k k' v :
  dict_get (dict_set d k v) k' =
  if String.eqb k k' then Some v else dict_get d k'.
Proof.
  destruct (String.eqb_spec k k') as [->|Hne].
  - apply dict_get_set_same.
  - now apply dict_get_set_other.
Qed.

Lemma dict_mem_true d k :
  dict_mem d k = true <-> exists v, dict_get d k = Some v.
Proof.
  unfold dict_mem. destruct (dict_get d k); split; intros; eauto.
  - discriminate.
  - destruct H as [? ?]; discriminate.
Qed.

Lemma dict_mem_false d k : dict_mem d k = false <-> dict_get d k = None.
Proof.
  unfold dict_mem. destruct (dict_get d k); split; congruence.
Qed.

Lemma dict_keys_get d k :
  In k (dict_keys d) <-> exists v, dict_get d k = Some v.
Proof.
  induction d as [|[k' v'] d IH]; simpl.
  - split; [tauto | intros [? ?]; discriminate].
  - destruct (String.eqb_spec k' k) as [->|Hne].
    + split; eauto.
    + rewrite <- IH. split; [intros [?|?]; [congruence | auto] | auto].
Qed.

Lemma dict_keys_set d k v :
  forall k', In k' (dict_keys (dict_set d k v)) <->
             k' = k \/ In k' (dict_keys d).
Proof.
  intros k'. rewrite !dict_keys_get, dict_get_set.
  destruct (String.eqb_spec k k') as [->|Hne].
  - split; eauto.
  - split; [auto | intros [?|?]; [congruence | auto]].
Qed.

Lemma dict_keys_set_nodup d k v :
  NoDup (dict_keys d) -> NoDup (dict_keys (dict_set d k v)).
Proof.
  induction d as [|[k' v'] d IH]; simpl; intros Hnd.
  - constructor; [tauto | constructor].
  - inversion Hnd as [|? ? Hnin Hnd']; subst.
    destruct (String.eqb_spec k' k) as [->|Hne]; simpl.
    + now constructor.
    + constructor; [|auto]. rewrite dict_keys_set. intros [?|?]; auto.
Qed.

Lemma dict_comp_nodup (f : string -> V) ks : NoDup (dict_keys (dict_comp ks f)).
Proof.
  unfold dict_comp.
  assert (Hgen : forall d, NoDup (dict_keys d) ->
            NoDup (dict_keys (fold_left (fun d k => dict_set d k (f k)) ks d))).
  { induction ks as [|k ks IH]; intros d Hd; simpl; [exact Hd|].
    apply IH. now apply dict_keys_set_nodup. }
  apply Hgen. constructor.
Qed.

(** Looking every key up gives the values, in order. *)
Lemma dict_get_keys_values d :
  NoDup (dict_keys d) ->
  map (dict_get d) (dict_keys d) = map Some (dict_values d).
Proof.
  induction d as [|[k v] d IH]; simpl; intros Hnd; [reflexivity|].
  inversion Hnd as [|? ? Hnin Hnd']; subst.
  rewrite String.eqb_refl. f_equal. rewrite <- IH by assumption.
  apply map_ext_in. intros k' Hk'.
  destruct (String.eqb_spec k k') as [->|]; [contradiction | reflexivity].
Qed.

Lemma dict_set_not_nil d k v : dict_set d k v <> [].
Proof.
  destruct d as [|[k' v'] d]; simpl; [|destruct (String.eqb k' k)]; discriminate.
Qed.

Lemma dict_comp_fold (f : string -> V) ks : forall d k,
  dict_get (fold_left (fun d k => dict_set d k (f k)) ks d) k =
  if in_dec string_dec k ks then Some (f k) else dict_get d k.
Proof.
  induction ks as [|k0 ks IH]; intros d k; simpl; [reflexivity|].
  rewrite IH. destruct (in_dec string_dec k ks) as [Hin|Hnin].
  - destruct (string_dec k0 k); reflexivity.
  - rewrite dict_get_set. destruct (string_dec k0 k) as [->|Hne].
    + now rewrite String.eqb_refl.
    + destruct (String.eqb_spec k0 k); [congruence | reflexivity].
Qed.

(** [{k: f(k) for k in ks}[k]] *)
Lemma dict_get_comp (f : string -> V) ks k :
  dict_get (dict_comp ks f) k =
  if in_dec string_dec k ks then Some (f k) else None.
Proof. unfold dict_comp. now rewrite dict_comp_fold. Qed.

Lemma dict_comp_not_nil (f : string -> V) ks :
  ks <> [] -> dict_comp ks f <> [].
Proof.
  intros Hks Hnil. destruct ks as [|k ks]; [congruence|].
  assert (Hget : dict_get (dict_comp (k :: ks) f) k = Some (f k)).
  { rewrite dict_get_comp. destruct (in_dec string_dec k (k :: ks)) as [|n];
      [reflexivity | exfalso; apply n; now left]. }
  rewrite Hnil in Hget. discriminate.
Qed.

End DictFacts.

(* ------------------------------------------------------------------ *)
(** ** Concrete runs on binary64 *)

(** C1. From an empty Q-table with learning rate 0.5 and discount 0.9,
    [update((4, "startup", True), "wait_5d", 10, None)] returns, stores
    exactly 5.0 under "wait_5d" in the row of that state and leaves the
    five other actions at 0.0; [get_best_action] on the state then
    returns [("wait_5d", 5.0)] and changes nothing. *)
Theorem ql_single_update_is_five (eps : binary64) :
  exists s1 : QL.agent binary64,
    QL.update (4, "startup", true) "wait_5d" 10%float None
              (QL.__init__ 0.5%float py_0_9 eps None) = Ok tt s1 /\
    dict_get (QL.q_table s1) (QL._get_state_key 4 "startup" true) =
      Some [("wait_1d", 0%float); ("wait_3d", 0%float); ("wait_5d", 5%float);
            ("wait_7d", 0%float); ("wait_10d", 0%float);
            ("wait_14d", 0%float)] /\
    QL.get_best_action 4 "startup" true s1 = Ok ("wait_5d", 5%float) s1.
Proof.
  eexists. split; [vm_compute; reflexivity|].
  split; vm_compute; reflexivity.
Qed.

(** C2. On a bandit with the standard arms and a context it has no row
    for, [get_arm_probabilities] returns 0.5 for the three arms; after
    [update(context, "casual", True)] it returns [2/3] for "casual" and
    still 0.5 for the two others. *)
Theorem ts_belief_update_two_thirds (s : TS.agent binary64)
    (title culture : string) (conn : bool) :
  TS.arms s = TS.default_arms ->
  dict_get (TS.distributions s) (TS._get_context_key title culture conn)
    = None ->
  TS.get_arm_probabilities title culture conn s =
    Ok [("formal", 0.5%float); ("casual", 0.5%float);
        ("connection_focused", 0.5%float)] s /\
  exists s' : TS.agent binary64,
    TS.update title culture conn "casual" true s = Ok tt s' /\
    TS.get_arm_probabilities title culture conn s' =
      Ok [("formal", 0.5%float); ("casual", (2 / 3)%float);
          ("connection_focused", 0.5%float)] s'.
Proof.
  intros Harms Hnew.
  set (key := TS._get_context_key title culture conn) in *.
  split.
  - unfold TS.get_arm_probabilities. fold key. run_py.
    unfold dict_mem. rewrite Hnew, Harms. reflexivity.
  - unfold TS.update, TS.init_context, TS.store. fold key. run_py.
    unfold dict_mem. rewrite Hnew, Harms.
    cbn [TS.distributions TS.set_distributions].
    rewrite dict_get_set_same. cbn. rewrite dict_get_set_same.
    eexists. split; [reflexivity|].
    unfold TS.get_arm_probabilities. fold key. run_py. cbn.
    unfold dict_mem. rewrite dict_get_set_same, Harms. cbn.
    repeat first [ rewrite dict_get_set_same
                 | progress (unfold TS.py_div; run_py)
                 | progress cbn ].
    reflexivity.
Qed.

Lemma ts_belief_update_two_thirds_fresh :
  TS.get_arm_probabilities "Recruiter" "casual" true
      (TS.__init__ (F := binary64) None) =
    Ok [("formal", 0.5%float); ("casual", 0.5%float);
        ("connection_focused", 0.5%float)] (TS.__init__ None) /\
  exists s' : TS.agent binary64,
    TS.update "Recruiter" "casual" true "casual" true (TS.__init__ None)
      = Ok tt s' /\
    TS.get_arm_probabilities "Recruiter" "casual" true s' =
      Ok [("formal", 0.5%float); ("casual", (2 / 3)%float);
          ("connection_focused", 0.5%float)] s'.
Proof.
  apply (@ts_belief_update_two_thirds (TS.__init__ None)
           "Recruiter" "casual" true); reflexivity.
Defined.

(* ------------------------------------------------------------------ *)
(** ** The order on floats *)

Lemma SFltb_irrefl (a : spec_float) : SFltb a a = false.
Proof.
  unfold SFltb. destruct a as [s|s| |s m e]; simpl; try reflexivity.
  - destruct s; reflexivity.
  - destruct s; rewrite Z.compare_refl, Pos.compare_cont_refl; reflexivity.
Qed.

Lemma SFltb_trans (a b c : spec_float) :
  SFltb a b = true -> SFltb b c = true -> SFltb a c = true.
Proof.
  unfold SFltb.
  destruct a as [sa|sa| |sa ma ea], b as [sb|sb| |sb mb eb],
           c as [sc|sc| |sc mc ec]; simpl;
    try discriminate; try (destruct sa); try (destruct sb);
    try (destruct sc); simpl; try discriminate; try reflexivity;
    change (Pos.compare_cont Eq ma mb) with (Pos.compare ma mb);
    change (Pos.compare_cont Eq mb mc) with (Pos.compare mb mc);
    change (Pos.compare_cont Eq ma mc) with (Pos.compare ma mc);
    destruct (Z.compare_spec ea eb), (Z.compare_spec eb ec),
             (Z.compare_spec ea ec);
    try discriminate; try reflexivity; try lia;
    destruct (Pos.compare_spec ma mb), (Pos.compare_spec mb mc),
             (Pos.compare_spec ma mc);
    simpl; try discriminate; try reflexivity; lia.
Qed.

#[export] Instance FloatOrder_binary64 : FloatOrder binary64.
Proof.
  split; cbn [flt PyFloat_binary64]; intros.
  - rewrite ltb_spec. apply SFltb_irrefl.
  - rewrite ltb_spec in *. eapply SFltb_trans; eassumption.
Qed.

Lemma Q_flt_iff (x y : Q) : flt x y = true <-> (x < y)%Q.
Proof.
  cbn [flt PyFloat_Q]. rewrite negb_true_iff.
  split.
  - intros Hb. apply Qnot_le_lt. intros Hle.
    apply Qle_bool_iff in Hle. congruence.
  - intros Hlt. destruct (Qle_bool y x) eqn:E; [|reflexivity].
    apply Qle_bool_iff in E. exfalso. eapply Qlt_not_le; eassumption.
Qed.

#[export] Instance FloatOrder_Q : FloatOrder Q.
Proof.
  split.
  - intros x. destruct (flt x x) eqn:E; [|reflexivity].
    apply Q_flt_iff in E. exfalso. eapply Qlt_irrefl; eassumption.
  - intros x y z Hxy Hyz. apply Q_flt_iff in Hxy, Hyz. apply Q_flt_iff.
    eapply Qlt_trans; eassumption.
Qed.

(* ------------------------------------------------------------------ *)
(** ** Adding 1.0 on binary64

    [x + 1.0] is the sum rounded to nearest even.  For [x >= 1.0] the
    exact sum has at least 54 bits, so it is shifted right before it is
    rounded; what comes out keeps an exponent above that of [1.0] and
    is nowhere below [x]. *)

Lemma Prim2SF_one : Prim2SF 1%float = SFone64.
Proof. vm_compute. reflexivity. Qed.

Lemma Prim2SF_zero : Prim2SF 0%float = S754_zero false.
Proof. vm_compute. reflexivity. Qed.

Lemma digits2_pos_bounds (p : positive) :
  2 ^ (Zpos (digits2_pos p) - 1) <= Zpos p < 2 ^ Zpos (digits2_pos p).
Proof.
  induction p as [p IH|p IH|]; cbn [digits2_pos].
  - rewrite Pos2Z.inj_succ.
    replace (Z.succ (Zpos (digits2_pos p)) - 1) with (Zpos (digits2_pos p)) by lia.
    rewrite Z.pow_succ_r by lia.
    assert (Hp : 2 ^ Zpos (digits2_pos p) = 2 * 2 ^ (Zpos (digits2_pos p) - 1)).
    { rewrite <- Z.pow_succ_r by lia. f_equal. lia. }
    lia.
  - rewrite Pos2Z.inj_succ.
    replace (Z.succ (Zpos (digits2_pos p)) - 1) with (Zpos (digits2_pos p)) by lia.
    rewrite Z.pow_succ_r by lia.
    assert (Hp : 2 ^ Zpos (digits2_pos p) = 2 * 2 ^ (Zpos (digits2_pos p) - 1)).
    { rewrite <- Z.pow_succ_r by lia. f_equal. lia. }
    lia.
  - cbn. lia.
Qed.

(** A number that reaches [2^k] has more than [k] digits. *)
Lemma digits2_pos_lower (p : positive) (k : Z) :
  0 <= k -> 2 ^ k <= Zpos p -> k < Zpos (digits2_pos p).
Proof.
  intros Hk Hp. destruct (digits2_pos_bounds p) as [_ Hup].
  destruct (Z.lt_ge_cases k (Zpos (digits2_pos p))) as [|Hge]; [assumption|].
  assert (2 ^ Zpos (digits2_pos p) <= 2 ^ k) by (apply Z.pow_le_mono_r; lia).
  lia.
Qed.

Lemma iter_xO_spec (d m : positive) :
  Zpos (Pos.iter xO m d) = Zpos m * 2 ^ Zpos d.
Proof.
  induction d as [|d IH] using Pos.peano_ind.
  - cbn. lia.
  - rewrite Pos.iter_succ, Pos2Z.inj_xO, IH, Pos2Z.inj_succ, Z.pow_succ_r by lia.
    lia.
Qed.

Lemma shr_1_div2 (mrs : shr_record) :
  0 <= shr_m mrs -> shr_m (shr_1 mrs) = shr_m mrs / 2.
Proof.
  destruct mrs as [m r s]. cbn [shr_m]. intros Hm.
  destruct m as [|p|p]; [reflexivity | | lia].
  destruct p as [p|p|]; cbn [shr_1 shr_m].
  - rewrite Pos2Z.inj_xI. apply Z.div_unique with (r := 1); lia.
  - rewrite Pos2Z.inj_xO. apply Z.div_unique with (r := 0); lia.
  - reflexivity.
Qed.

Lemma iter_shr_1_div (n : positive) : forall mrs,
  0 <= shr_m mrs ->
  shr_m (iter_pos shr_1 n mrs) = shr_m mrs / 2 ^ Zpos n.
Proof.
  induction n as [n IH|n IH|]; intros mrs Hm; cbn [iter_pos].
  - assert (Hpow : 0 < 2 ^ Zpos n) by (apply Z.pow_pos_nonneg; lia).
    assert (H1 : 0 <= shr_m (shr_1 mrs)).
    { rewrite shr_1_div2 by assumption. apply Z.div_pos; lia. }
    assert (H2 : 0 <= shr_m (iter_pos shr_1 n (shr_1 mrs))).
    { rewrite IH by assumption. apply Z.div_pos; lia. }
    rewrite IH, IH, shr_1_div2 by assumption.
    rewrite !Z.div_div by lia.
    f_equal. rewrite Pos2Z.inj_xI.
    replace (2 * Zpos n + 1) with (1 + Zpos n + Zpos n) by lia.
    rewrite !Z.pow_add_r by lia. change (2 ^ 1) with 2. lia.
  - assert (Hpow : 0 < 2 ^ Zpos n) by (apply Z.pow_pos_nonneg; lia).
    assert (H2 : 0 <= shr_m (iter_pos shr_1 n mrs)).
    { rewrite IH by assumption. apply Z.div_pos; lia. }
    rewrite IH, IH by assumption.
    rewrite !Z.div_div by lia.
    f_equal. rewrite <- Z.pow_add_r by lia. f_equal. lia.
  - rewrite shr_1_div2 by assumption. reflexivity.
Qed.

Lemma round_nearest_even_bounds (m : Z) (l : location) :
  m <= round_nearest_even m l <= m + 1.
Proof.
  destruct l as [|[| |]]; cbn [round_nearest_even]; try lia.
  destruct (Z.even m); lia.
Qed.

Lemma fexp64 (z : Z) : -1074 <= z - 53 -> fexp prec emax z = z - 53.
Proof. intros Hz. unfold fexp, SpecFloat.emin, prec, emax. lia. Qed.

Lemma div_pow_lower (x k j : Z) :
  0 <= j -> 0 <= k -> 2 ^ (k + j) <= x -> 2 ^ k <= x / 2 ^ j.
Proof.
  intros Hj Hk Hx.
  assert (Hpow : 0 < 2 ^ j) by (apply Z.pow_pos_nonneg; lia).
  apply Z.div_le_lower_bound; [exact Hpow|].
  rewrite <- Z.pow_add_r by lia. now rewrite Z.add_comm.
Qed.

Lemma round_aux_at_least (M : positive) (e0 : Z) :
  54 <= Zpos (digits2_pos M) ->
  -1074 <= Zpos (digits2_pos M) + e0 - 53 ->
  at_least (e0 + (Zpos (digits2_pos M) - 53))
           (Zpos M / 2 ^ (Zpos (digits2_pos M) - 53))
           (binary_round_aux prec emax false (Zpos M) e0 loc_Exact).
Proof.
  intros Hd Hfexp. set (d := Zpos (digits2_pos M)) in *.
  unfold binary_round_aux.
  unfold shr_fexp at 1. cbn [Zdigits2]. fold d.
  rewrite fexp64 by lia.
  destruct (d + e0 - 53 - e0) as [|pn|pn] eqn:En; try lia.
  cbn [shr shr_record_of_loc].
  set (mrs' := iter_pos shr_1 pn (Build_shr_record (Zpos M) false false)).
  assert (Hq : shr_m mrs' = Zpos M / 2 ^ (d - 53)).
  { unfold mrs'. rewrite iter_shr_1_div by (cbn; lia). cbn [shr_m].
    f_equal. f_equal. lia. }
  assert (Hq52 : 2 ^ 52 <= shr_m mrs').
  { rewrite Hq. apply div_pow_lower; try lia.
    replace (52 + (d - 53)) with (d - 1) by lia.
    apply digits2_pos_bounds. }
  pose proof (@round_nearest_even_bounds (shr_m mrs') (loc_of_shr_record mrs'))
    as Hround.
  set (m1 := round_nearest_even (shr_m mrs') (loc_of_shr_record mrs')) in *.
  assert (H52 : 0 < 2 ^ 52) by (apply Z.pow_pos_nonneg; lia).
  destruct m1 as [|p1|p1] eqn:Em1; try lia.
  assert (Hd1 : 52 < Zpos (digits2_pos p1)).
  { apply digits2_pos_lower; lia. }
  unfold shr_fexp. cbn [Zdigits2]. set (d1 := Zpos (digits2_pos p1)) in *.
  rewrite fexp64 by lia.
  set (e' := e0 + Zpos pn) in *.
  destruct (d1 + e' - 53 - e') as [|p2|p2] eqn:En2; try lia.
  - cbn [shr shr_record_of_loc shr_m].
    destruct (e' <=? emax - prec); [|now left].
    right. exists p1, e'. split; [reflexivity|]. right. split; [lia|]. lia.
  - cbn [shr shr_record_of_loc].
    set (mrs'' := iter_pos shr_1 p2 (Build_shr_record (Zpos p1) false false)).
    assert (Hq2 : 2 ^ 52 <= shr_m mrs'').
    { unfold mrs''. rewrite iter_shr_1_div by (cbn; lia). cbn [shr_m].
      apply div_pow_lower; try lia.
      replace (52 + Zpos p2) with (d1 - 1) by lia.
      apply digits2_pos_bounds. }
    destruct (shr_m mrs'') as [|mf|mf]; try lia.
    destruct (e' + Zpos p2 <=? emax - prec); [|now left].
    right. exists mf, (e' + Zpos p2). split; [reflexivity|]. left. lia.
Qed.

Lemma shl_align_spec (m : positive) (e e' : Z) :
  e' <= e ->
  snd (shl_align m e e') = e' /\
  Zpos (fst (shl_align m e e')) = Zpos m * 2 ^ (e - e').
Proof.
  intros Hle. unfold shl_align.
  destruct (e' - e) as [|p|p] eqn:E; cbn [fst snd]; try lia.
  - replace (e - e') with 0 by lia. cbn. lia.
  - rewrite iter_xO_spec. split; [reflexivity|]. f_equal. f_equal. lia.
Qed.

Lemma shl_align_id (m : positive) (e e' : Z) :
  e <= e' -> shl_align m e e' = (m, e).
Proof.
  intros Hle. unfold shl_align. destruct (e' - e) eqn:E; try reflexivity. lia.
Qed.

(** Adding [1.0] to a binary64 number that is at least [1.0]. *)
Lemma SFadd_one_at_least (m : positive) (e : Z) :
  Zpos (digits2_pos m) = 53 -> -52 <= e ->
  exists e' q,
    at_least e' q (SF64add (S754_finite false m e) SFone64) /\
    -52 < e' /\ e <= e' /\ (e = e' -> Zpos m <= q).
Proof.
  intros Hdm He.
  destruct (digits2_pos_bounds m) as [Hlow _]. rewrite Hdm in Hlow.
  change (2 ^ (53 - 1)) with 4503599627370496 in Hlow.
  unfold SF64add, SFadd, SFone64.
  rewrite Z.min_r by lia.
  destruct (@shl_align_spec m e (-52) He) as [_ Hm1].
  set (m1 := fst (shl_align m e (-52))) in *.
  rewrite (@shl_align_id 4503599627370496 (-52) (-52)) by lia.
  cbn [fst cond_Zopp Z.add binary_normalize].
  set (M := (m1 + 4503599627370496)%positive).
  assert (HM : Zpos M = Zpos m * 2 ^ (e + 52) + 2 ^ 52).
  { unfold M. rewrite Pos2Z.inj_add, Hm1.
    replace (e - -52) with (e + 52) by lia. reflexivity. }
  assert (Hpow : 1 <= 2 ^ (e + 52)).
  { change 1 with (2 ^ 0). apply Z.pow_le_mono_r; lia. }
  change (2 ^ 52) with 4503599627370496 in HM.
  assert (Hbig : 2 ^ (e + 104) <= Zpos M).
  { replace (e + 104) with (52 + (e + 52)) by lia.
    rewrite Z.pow_add_r by lia. change (2 ^ 52) with 4503599627370496. nia. }
  assert (Hd1 : e + 104 < Zpos (digits2_pos M))
    by (apply digits2_pos_lower; [lia | exact Hbig]).
  assert (Hd2 : 53 < Zpos (digits2_pos M)).
  { apply digits2_pos_lower; [lia|].
    change (2 ^ 53) with 9007199254740992. nia. }
  unfold binary_round. rewrite shl_align_id.
  2: { rewrite fexp64 by lia. lia. }
  exists (-52 + (Zpos (digits2_pos M) - 53)), (Zpos M / 2 ^ (Zpos (digits2_pos M) - 53)).
  split; [apply round_aux_at_least; lia|].
  split; [lia|]. split; [lia|].
  intros Heq. replace (Zpos (digits2_pos M) - 53) with (e + 52) by lia.
  apply Z.div_le_lower_bound; [apply Z.pow_pos_nonneg; lia|]. lia.
Qed.

Lemma SFleb_one_inv (a : spec_float) :
  valid_binary a = true -> SFleb SFone64 a = true ->
  a = S754_infinity false \/
  exists m e, a = S754_finite false m e /\
              Zpos (digits2_pos m) = 53 /\ -52 <= e.
Proof.
  intros Hvalid Hle. unfold SFleb, SFone64 in Hle.
  destruct a as [s|s| |s m e]; cbn [SFcompare] in Hle; try discriminate.
  - destruct s; [discriminate | now left].
  - destruct s; [discriminate|]. right. exists m, e. split; [reflexivity|].
    assert (He : -52 <= e).
    { destruct (Z.compare_spec (-52) e); [lia | lia | discriminate]. }
    split; [|exact He].
    cbn [SpecFloat.valid_binary] in Hvalid. unfold bounded in Hvalid.
    apply andb_true_iff in Hvalid. destruct Hvalid as [Hcanon _].
    unfold canonical_mantissa in Hcanon. apply Z.eqb_eq in Hcanon.
    unfold fexp, SpecFloat.emin, prec, emax in Hcanon. lia.
Qed.

Lemma SFleb_at_least (m : positive) (e : Z) (r : spec_float) (e' q : Z) :
  at_least e' q r -> e <= e' -> (e = e' -> Zpos m <= q) ->
  SFleb (S754_finite false m e) r = true.
Proof.
  intros [->|(mf & ef & -> & Hr)] He Hq; [reflexivity|].
  unfold SFleb. cbn [SFcompare].
  change (Pos.compare_cont Eq m mf) with (Pos.compare m mf).
  destruct (Z.compare_spec e ef); try reflexivity; try lia.
  destruct (Pos.compare_spec m mf); try reflexivity. lia.
Qed.

Lemma SFleb_refl_ge_one (a : spec_float) :
  valid_binary a = true -> SFleb SFone64 a = true -> SFleb a a = true.
Proof.
  intros Hv Hle.
  destruct (@SFleb_one_inv a Hv Hle) as [->|(m & e & -> & _)]; [reflexivity|].
  unfold SFleb. cbn [SFcompare].
  now rewrite Z.compare_refl, Pos.compare_cont_refl.
Qed.

Lemma binary64_add_one (x : float) :
  (1 <=? x)%float = true ->
  (1 <=? x + 1)%float = true /\ (x <=? x + 1)%float = true.
Proof.
  rewrite !leb_spec, add_spec, Prim2SF_one. intros Hle.
  destruct (@SFleb_one_inv _ (Prim2SF_valid x) Hle)
    as [->|(m & e & -> & Hd & He)]; [split; reflexivity|].
  destruct (@SFadd_one_at_least m e Hd He) as (e' & q & Hr & H1 & H2 & H3).
  split.
  - unfold SFone64 at 1. eapply SFleb_at_least; [exact Hr | lia | lia].
  - eapply SFleb_at_least; eassumption.
Qed.

#[export] Instance FloatUnit_binary64 : FloatUnit binary64.
Proof.
  split; cbn [fle fadd f0 f1 PyFloat_binary64].
  - reflexivity.
  - intros x Hx. rewrite leb_spec, Prim2SF_one in Hx.
    rewrite leb_spec, Prim2SF_zero.
    destruct (@SFleb_one_inv _ (Prim2SF_valid x) Hx)
      as [->|(m & e & -> & _)]; reflexivity.
  - intros x Hx. rewrite leb_spec, Prim2SF_one in Hx. rewrite leb_spec.
    now apply SFleb_refl_ge_one; [apply Prim2SF_valid|].
  - intros x Hx. now apply binary64_add_one.
  - intros x Hx. now apply binary64_add_one.
Qed.

(* ------------------------------------------------------------------ *)
(** ** The built-in [max] *)

Section MaxFacts.
Context {A : Type} (gt : A -> A -> bool).
Hypothesis gt_irrefl : forall x, gt x x = false.
Hypothesis gt_trans :
  forall x y z, gt x y = true -> gt y z = true -> gt x z = true.

Lemma max_loop_in (l : list A) : forall best,
  In (max_loop gt best l) (best :: l).
Proof.
  induction l as [|x l IH]; intros best; simpl; [now left|].
  destruct (IH (if gt x best then x else best)) as [E|Hin].
  - destruct (gt x best); rewrite <- E; auto.
  - auto.
Qed.

(** An item that does not exceed the candidate does not exceed the
    final result either. *)
Lemma max_loop_keeps (l : list A) : forall best x,
  gt x best = false -> gt x (max_loop gt best l) = false.
Proof.
  induction l as [|y l IH]; intros best x Hx; simpl; [exact Hx|].
  apply IH. destruct (gt y best) eqn:Ey; [|exact Hx].
  destruct (gt x y) eqn:Exy; [|reflexivity].
  rewrite (gt_trans Exy Ey) in Hx. discriminate.
Qed.

Lemma max_loop_dominates (l : list A) : forall best x,
  In x (best :: l) -> gt x (max_loop gt best l) = false.
Proof.
  induction l as [|y l IH]; intros best x Hx; simpl.
  - destruct Hx as [<-|[]]. apply gt_irrefl.
  - destruct Hx as [<-|[<-|Hx]].
    + apply max_loop_keeps. destruct (gt y best) eqn:Ey.
      * destruct (gt best y) eqn:Eb; [|reflexivity].
        rewrite <- (gt_irrefl best). symmetry.
        eapply gt_trans; eassumption.
      * apply gt_irrefl.
    + apply max_loop_keeps. destruct (gt y best) eqn:Ey.
      * apply gt_irrefl.
      * exact Ey.
    + apply IH. now right.
Qed.

(** [max] returns an item of its argument that no item exceeds. *)
Lemma py_max_spec (l : list A) :
  l <> [] ->
  exists m, py_max gt l = Some m /\ In m l /\
            forall x, In x l -> gt x m = false.
Proof.
  destruct l as [|b l]; [congruence|]. intros _.
  exists (max_loop gt b l). split; [reflexivity|]. split.
  - apply max_loop_in.
  - intros x Hx. now apply max_loop_dominates.
Qed.

End MaxFacts.

(** [max(l, key=key)] has the key that [max] finds among the keys. *)
Lemma max_loop_map {A B} (gt : B -> B -> bool) (key : A -> B) (l : list A) :
  forall best,
    key (max_loop (fun x y => gt (key x) (key y)) best l) =
    max_loop gt (key best) (map key l).
Proof.
  induction l as [|x l IH]; intros best; simpl; [reflexivity|].
  rewrite IH. now destruct (gt (key x) (key best)).
Qed.

Section MaxKeyFacts.
Context {F : Type} `{FloatOrder F}.

Lemma opt_gt_irrefl (x : option F) : opt_gt x x = false.
Proof. destruct x; simpl; [apply flt_irrefl | reflexivity]. Qed.

Lemma opt_gt_trans (x y z : option F) :
  opt_gt x y = true -> opt_gt y z = true -> opt_gt x z = true.
Proof.
  destruct x, y, z; simpl; try discriminate. unfold fgt.
  intros Hxy Hyz. eapply flt_trans; eassumption.
Qed.

Lemma max_loop_some (l : list F) : forall best,
  max_loop opt_gt (Some best) (map Some l) = Some (max_loop fgt best l).
Proof.
  induction l as [|x l IH]; intros best; simpl; [reflexivity|].
  destruct (fgt x best); apply IH.
Qed.

(** The value under the key [max(d, key=d.get)] is [max(d.values())]. *)
Lemma py_max_key_values (d : dict F) a :
  NoDup (dict_keys d) ->
  py_max_key opt_gt (dict_get d) (dict_keys d) = Some a ->
  dict_get d a = py_max fgt (dict_values d).
Proof.
  intros Hnd. unfold py_max_key, py_max.
  pose proof (@dict_get_keys_values _ d Hnd) as Hmap.
  destruct d as [|[k v] d]; [discriminate|].
  cbn [dict_keys dict_values map] in *. intros [= <-].
  rewrite max_loop_map.
  injection Hmap as Hk Hrest. rewrite Hk, Hrest. apply max_loop_some.
Qed.

(** [max(d, key=d.get)] on a non-empty dictionary returns a key of [d]
    whose value no value of [d] exceeds. *)
Lemma py_max_key_dict (d : dict F) :
  d <> [] ->
  exists a v, py_max_key opt_gt (dict_get d) (dict_keys d) = Some a /\
              dict_get d a = Some v /\
              forall a' v', dict_get d a' = Some v' -> fgt v' v = false.
Proof.
  intros Hd.
  destruct (@py_max_spec string
              (fun x y => opt_gt (dict_get d x) (dict_get d y))
              (fun x => opt_gt_irrefl _)
              (fun x y z => @opt_gt_trans _ _ _)
              (dict_keys d)) as (a & Hmax & Hin & Hdom).
  { destruct d; [congruence | discriminate]. }
  apply dict_keys_get in Hin. destruct Hin as [v Hv].
  exists a, v. split; [exact Hmax|]. split; [exact Hv|].
  intros a' v' Hv'.
  assert (Hin' : In a' (dict_keys d)) by (apply dict_keys_get; eauto).
  specialize (Hdom a' Hin'). now rewrite Hv', Hv in Hdom.
Qed.

End MaxKeyFacts.

(* ------------------------------------------------------------------ *)
(** ** Reasoning about method bodies *)

Section MonadFacts.
Context {S : Type}.

(** A property of the state survives [m ;; k] when it survives [m],
    raising or not, and survives [k] after every return of [m]. *)
Lemma inv_bind {A B} (I : S -> Prop) (m : M S A) (k : A -> M S B) s :
  I (state_of (m s)) ->
  (forall a s', m s = Ok a s' -> I s' -> I (state_of (k a s'))) ->
  I (state_of (bind m k s)).
Proof.
  unfold bind. intros Hm Hk. destruct (m s) as [a s'|e s'] eqn:E;
    [apply Hk; auto | exact Hm].
Qed.

Lemma bind_ok {A B} (m : M S A) (k : A -> M S B) s b s2 :
  bind m k s = Ok b s2 <->
  exists a s1, m s = Ok a s1 /\ k a s1 = Ok b s2.
Proof.
  unfold bind. destruct (m s) as [a s1|e s1]; split.
  - eauto.
  - intros (a' & s1' & [= <- <-] & Hk). exact Hk.
  - discriminate.
  - intros (a' & s1' & [=] & _).
Qed.

Lemma gets_ok {A} (f : S -> A) s a s' :
  gets f s = Ok a s' <-> a = f s /\ s' = s.
Proof. unfold gets. split; [intros [= <- <-] | intros [-> ->]]; auto. Qed.

Lemma ret_ok {A} (x : A) (s : S) a s' :
  ret x s = Ok a s' <-> a = x /\ s' = s.
Proof. unfold ret. split; [intros [= <- <-] | intros [-> ->]]; auto. Qed.

Lemma modify_ok (f : S -> S) s u s' :
  modify f s = Ok u s' <-> s' = f s.
Proof.
  unfold modify. destruct u. split; [intros [= <-] | intros ->]; auto.
Qed.

Lemma getitem_ok {V} (d : dict V) k (s : S) v s' :
  getitem d k s = Ok v s' <-> dict_get d k = Some v /\ s' = s.
Proof.
  unfold getitem, ret, raise. destruct (dict_get d k); split.
  - intros [= <- <-]; auto.
  - intros [[= ->] ->]; auto.
  - discriminate.
  - intros [[=] _].
Qed.

Lemma max_or_raise_ok {A} (m : option A) (s : S) a s' :
  max_or_raise m s = Ok a s' <-> m = Some a /\ s' = s.
Proof.
  unfold max_or_raise, ret, raise. destruct m; split.
  - intros [= <- <-]; auto.
  - intros [[= ->] ->]; auto.
  - discriminate.
  - intros [[=] _].
Qed.

(** [reads m]: [m] leaves the state as it found it, returning or
    raising. *)
Definition reads {A} (m : M S A) : Prop := forall s, state_of (m s) = s.

Lemma reads_ok {A} (m : M S A) s a s' :
  reads m -> m s = Ok a s' -> s' = s.
Proof. intros Hm E. specialize (Hm s). now rewrite E in Hm. Qed.

Lemma reads_gets {A} (f : S -> A) : reads (gets f).
Proof. intros s. reflexivity. Qed.

Lemma reads_ret {A} (x : A) : reads (ret x).
Proof. intros s. reflexivity. Qed.

Lemma reads_raise {A} e : reads (@raise S A e).
Proof. intros s. reflexivity. Qed.

Lemma reads_getitem {V} (d : dict V) k : reads (getitem d k).
Proof. intros s. unfold getitem. destruct (dict_get d k); reflexivity. Qed.

Lemma reads_max_or_raise {A} (m : option A) : reads (max_or_raise m).
Proof. intros s. destruct m; reflexivity. Qed.

Lemma reads_random_choice {A} i (l : list A) : reads (random_choice i l).
Proof.
  intros s. unfold random_choice. destruct (nth_error l _); reflexivity.
Qed.

Lemma reads_bind {A B} (m : M S A) (k : A -> M S B) :
  reads m -> (forall a, reads (k a)) -> reads (bind m k).
Proof.
  intros Hm Hk s. unfold bind. destruct (m s) as [a s'|e s'] eqn:E.
  - rewrite (Hk a s'). eapply reads_ok; eassumption.
  - specialize (Hm s). now rewrite E in Hm.
Qed.

End MonadFacts.

Create HintDb reads discriminated.
#[export] Hint Resolve reads_gets reads_ret reads_raise reads_getitem
  reads_max_or_raise reads_random_choice : reads.

(** One step through a method body while a state property is carried
    along, for a step that only reads. *)
Ltac inv_read :=
  apply inv_bind;
  [ match goal with
    | |- _ (state_of (?m ?s)) =>
        let R := fresh in
        assert (R : reads m) by auto with reads;
        rewrite (R s); clear R
    end;
    try assumption
  | let a := fresh "a" in
    let s' := fresh "s" in
    let E := fresh "E" in
    intros a s' E _;
    first [ apply gets_ok in E; destruct E as [E ->]
          | apply getitem_ok in E; destruct E as [E ->]
          | apply max_or_raise_ok in E; destruct E as [E ->]
          | apply ret_ok in E; destruct E as [E ->]
          | match type of E with
            | ?m _ = Ok _ _ =>
                let R := fresh in
                assert (R : reads m) by auto with reads;
                apply (reads_ok R) in E; subst s'
            end ] ].

(* ------------------------------------------------------------------ *)
(** ** The scheduler's table invariant *)

Section SchedulerFacts.
Context {F : Type} `{PyFloat F}.
Implicit Types s : QL.agent F.

Lemma full_row_comp {V} names (f : string -> V) :
  full_row names (dict_comp names f).
Proof.
  intros a Ha. rewrite dict_get_comp.
  destruct (in_dec string_dec a names); [eauto | contradiction].
Qed.

Lemma full_row_set {V} names (row : dict V) a v :
  full_row names row -> full_row names (dict_set row a v).
Proof.
  intros Hrow b Hb. rewrite dict_get_set.
  destruct (String.eqb a b); eauto.
Qed.

Lemma full_row_not_nil {V} names (row : dict V) :
  names <> [] -> full_row names row -> row <> [].
Proof.
  intros Hn Hrow ->. destruct names as [|a names]; [congruence|].
  destruct (Hrow a) as [v Hv]; [now left | discriminate].
Qed.

(** The invariant reads the action list and the table only. *)
Lemma ql_ok_ext s s' :
  QL.actions s' = QL.actions s -> QL.q_table s' = QL.q_table s ->
  ql_ok s -> ql_ok s'.
Proof. unfold ql_ok. intros -> ->. auto. Qed.

Lemma ql_ok_set_row s k row :
  ql_ok s -> full_row (QL.actions s) row -> NoDup (dict_keys row) ->
  ql_ok (QL.set_q_table s (dict_set (QL.q_table s) k row)).
Proof.
  intros [Hact Hrows] Hrow Hnd. split; [exact Hact|].
  cbn. intros k' row'. rewrite dict_get_set.
  destruct (String.eqb k k'); [intros [= <-]; auto | apply Hrows].
Qed.

Lemma ql_init_state_ok k s :
  ql_ok s -> ql_ok (state_of (QL.init_state k s)).
Proof.
  intros Hok. cbn. destruct (dict_mem (QL.q_table s) k); [exact Hok|].
  apply ql_ok_set_row;
    [exact Hok | apply full_row_comp | apply dict_comp_nodup].
Qed.

Lemma ql_init_state_row k s :
  exists row,
    dict_get (QL.q_table (state_of (QL.init_state k s))) k = Some row.
Proof.
  cbn. destruct (dict_mem (QL.q_table s) k) eqn:E.
  - now apply dict_mem_true.
  - cbn. rewrite dict_get_set_same. eauto.
Qed.

Lemma ql_update_ok st a r nxt s :
  ql_ok s -> ql_ok (state_of (QL.update st a r nxt s)).
Proof.
  intros Hok. destruct st as [[d c] h]. unfold QL.update.
  apply inv_bind; [now apply ql_init_state_ok|]. intros [] s1 _ Hok1.
  inv_read. inv_read. inv_read.
  apply inv_bind.
  { destruct nxt as [[[d' c'] h']|]; [|exact Hok1].
    apply inv_bind; [now apply ql_init_state_ok|]. intros [] s2 _ Hok2.
    inv_read. inv_read. now rewrite reads_max_or_raise. }
  intros max_next_q s2 _ Hok2.
  inv_read. inv_read. inv_read. inv_read.
  apply inv_bind.
  - cbn. subst.
    match goal with
    | E : dict_get (QL.q_table s2) _ = Some _ |- _ =>
        destruct (proj2 Hok2 _ _ E) as [Hfull Hnd]
    end.
    apply ql_ok_set_row;
      [exact Hok2 | now apply full_row_set | now apply dict_keys_set_nodup].
  - intros [] s3 _ Hok3. cbn. eapply ql_ok_ext; [| |exact Hok3]; reflexivity.
Qed.

Lemma ql_get_action_ok d c h explore u pick s :
  ql_ok s -> ql_ok (state_of (QL.get_action d c h explore u pick s)).
Proof.
  intros Hok. unfold QL.get_action.
  apply inv_bind; [now apply ql_init_state_ok|]. intros [] s1 _ Hok1.
  inv_read. destruct (explore && flt u a).
  - inv_read. now rewrite reads_random_choice.
  - inv_read. inv_read. inv_read. now rewrite reads_random_choice.
Qed.

Lemma ql_get_best_action_ok d c h s :
  ql_ok s -> ql_ok (state_of (QL.get_best_action d c h s)).
Proof.
  intros Hok. unfold QL.get_best_action.
  apply inv_bind; [now apply ql_init_state_ok|]. intros [] s1 _ Hok1.
  inv_read. inv_read. inv_read. inv_read. exact Hok1.
Qed.

Lemma ql_reload_fields now a g e s :
  QL.actions (QL.__init__ a g e (Some (QL.to_dict now s))) = QL.actions s /\
  QL.q_table (QL.__init__ a g e (Some (QL.to_dict now s))) = QL.q_table s.
Proof. split; reflexivity. Qed.

Lemma ql_reachable_ok s : ql_reachable s -> ql_ok s.
Proof.
  induction 1.
  - split; [discriminate | intros k row [=]].
  - now apply ql_get_action_ok.
  - now apply ql_update_ok.
  - now apply ql_get_best_action_ok.
  - eapply ql_ok_ext; [| |eassumption]; apply ql_reload_fields.
Qed.

End SchedulerFacts.

(** C4. On every reachable scheduler and for every state, seen before
    or not, [get_best_action] returns; the action it returns is in the
    state's row, the value it returns is the one stored for that
    action, it is [max] of the row's values, and no action of the row
    has a greater value. *)
Theorem ql_get_best_action_is_max {F : Type} `{FloatOrder F}
    (s : QL.agent F) (d : Z) (c : string) (h : bool) :
  ql_reachable s ->
  exists (a : string) (v : F) (s' : QL.agent F) (row : dict F),
    QL.get_best_action d c h s = Ok (a, v) s' /\
    dict_get (QL.q_table s') (QL._get_state_key d c h) = Some row /\
    dict_get row a = Some v /\
    py_max fgt (dict_values row) = Some v /\
    forall a' v', dict_get row a' = Some v' -> fgt v' v = false.
Proof.
  intros Hreach. apply ql_reachable_ok in Hreach.
  set (key := QL._get_state_key d c h).
  pose proof (ql_init_state_ok key Hreach) as Hok1.
  destruct (ql_init_state_row key s) as [row Hrow].
  set (s1 := state_of (QL.init_state key s)) in *.
  destruct Hok1 as [Hact Hrows].
  destruct (Hrows _ _ Hrow) as [Hfull Hnd].
  assert (Hne : row <> []) by (eapply full_row_not_nil; eassumption).
  destruct (py_max_key_dict Hne) as (a & v & Hmax & Hv & Hdom).
  exists a, v, s1, row. split; [|repeat split; auto].
  2: { rewrite <- Hv. symmetry. now apply py_max_key_values. }
  unfold QL.get_best_action. fold key.
  apply bind_ok. exists tt, s1. split; [reflexivity|].
  apply bind_ok. exists (QL.q_table s1), s1. split; [reflexivity|].
  apply bind_ok. exists row, s1. split; [now apply getitem_ok|].
  apply bind_ok. exists a, s1. split; [now apply max_or_raise_ok|].
  apply bind_ok. exists v, s1. split; [now apply getitem_ok|].
  reflexivity.
Qed.

Lemma ql_get_best_action_is_max_fresh :
  exists (a : string) (v : binary64) (s' : QL.agent binary64)
         (row : dict binary64),
    QL.get_best_action 7 "enterprise" false
        (QL.__init__ 0.5%float py_0_9 0.125%float None) = Ok (a, v) s' /\
    dict_get (QL.q_table s') (QL._get_state_key 7 "enterprise" false)
      = Some row /\
    dict_get row a = Some v /\
    py_max fgt (dict_values row) = Some v /\
    forall a' v', dict_get row a' = Some v' -> fgt v' v = false.
Proof.
  apply (@ql_get_best_action_is_max binary64 _ _
           (QL.__init__ 0.5%float py_0_9 0.125%float None)
           7 "enterprise" false).
  apply ql_fresh.
Defined.

(* ------------------------------------------------------------------ *)
(** ** Serialising and loading *)

Section RoundTrip.
Context {F : Type} `{PyFloat F}.

(** Loading a scheduler's own dictionary restores every field that
    [to_dict] writes; [episode_rewards] is the one it does not. *)
Lemma ql_reload_eq now a g e (s : QL.agent F) :
  QL.__init__ a g e (Some (QL.to_dict now s)) =
  QL.mk_agent (QL.alpha s) (QL.gamma s) (QL.epsilon s) (QL.actions s)
              (QL.q_table s) (QL.total_updates s) [].
Proof. reflexivity. Qed.

Lemma ql_load_eq now (s fresh : QL.agent F) :
  state_of (QL.load_from_dict (QL.to_dict now s) fresh) =
  QL.mk_agent (QL.alpha s) (QL.gamma s) (QL.epsilon s) (QL.actions s)
              (QL.q_table s) (QL.total_updates s) (QL.episode_rewards fresh).
Proof. reflexivity. Qed.

Lemma ql_update_episode_rewards st a r nxt (s : QL.agent F) :
  QL.episode_rewards (state_of (QL.update st a r nxt s)) =
  QL.episode_rewards s.
Proof.
  set (I := fun s' : QL.agent F =>
              QL.episode_rewards s' = QL.episode_rewards s).
  enough (HI : I (state_of (QL.update st a r nxt s))) by exact HI.
  destruct st as [[d c] h]. unfold QL.update.
  assert (Hinit : forall k s', I s' -> I (state_of (QL.init_state k s'))).
  { intros k s' Hs'. unfold I in *. cbn.
    destruct (dict_mem (QL.q_table s') k); exact Hs'. }
  apply inv_bind; [apply Hinit; reflexivity|]. intros [] s1 _ H1.
  inv_read. inv_read. inv_read.
  apply inv_bind.
  { destruct nxt as [[[d' c'] h']|]; [|exact H1].
    apply inv_bind; [now apply Hinit|]. intros [] s2 _ H2.
    inv_read. inv_read. now rewrite reads_max_or_raise. }
  intros max_next_q s2 _ H2.
  inv_read. inv_read. inv_read. inv_read.
  apply inv_bind; [exact H2|]. intros [] s3 _ H3. exact H3.
Qed.

Lemma ql_run_episode_rewards calls : forall s : QL.agent F,
  QL.episode_rewards (ql_run calls s) = QL.episode_rewards s.
Proof.
  unfold ql_run.
  induction calls as [|c calls IH]; intros s; cbn [fold_left];
    [reflexivity|].
  rewrite IH. apply ql_update_episode_rewards.
Qed.

(** [get_best_action] reads the action list and the table only. *)
Lemma ql_get_best_action_ext d c h (s s' : QL.agent F) :
  QL.actions s' = QL.actions s -> QL.q_table s' = QL.q_table s ->
  value_of (QL.get_best_action d c h s') =
    value_of (QL.get_best_action d c h s) /\
  QL.q_table (state_of (QL.get_best_action d c h s')) =
    QL.q_table (state_of (QL.get_best_action d c h s)).
Proof.
  intros Ha Hq. unfold QL.get_best_action, QL.init_state. run_py. cbn.
  rewrite Ha, Hq.
  destruct (dict_mem (QL.q_table s) (QL._get_state_key d c h)); cbn;
    rewrite ?Ha, ?Hq, ?dict_get_set_same; unfold ret, raise;
    repeat match goal with
           | |- context [match ?x with Some _ => _ | None => _ end] =>
               destruct x; cbn
           end; auto.
Qed.

End RoundTrip.

(* ------------------------------------------------------------------ *)
(** ** The bandit: what each method reads and writes *)

Section BanditFacts.
Context {F : Type} `{PyFloat F}.
Implicit Types s : TS.agent F.

Lemma reads_np_random_beta (x a b : F) : reads (TS.np_random_beta x a b).
Proof.
  intros s. unfold TS.np_random_beta. destruct (fle a f0 || fle b f0);
    reflexivity.
Qed.

Lemma reads_py_div (x y : F) : reads (TS.py_div x y).
Proof. intros s. unfold TS.py_div. destruct (feq y f0); reflexivity. Qed.

Lemma reads_sample_arms key draw todo : forall i samples,
  reads (TS.sample_arms key draw i todo samples).
Proof.
  induction todo as [|arm todo IH]; intros i samples; cbn [TS.sample_arms].
  - apply reads_ret.
  - repeat (apply reads_bind; [auto using reads_np_random_beta with reads|];
            intros ?).
    apply IH.
Qed.

Lemma reads_mean_arms key todo : forall probabilities,
  reads (TS.mean_arms key todo probabilities).
Proof.
  induction todo as [|arm todo IH]; intros probs; cbn [TS.mean_arms].
  - apply reads_ret.
  - repeat (apply reads_bind; [auto using reads_py_div with reads|];
            intros ?).
    apply IH.
Qed.

Lemma reads_get_arm_probabilities t c h :
  reads (TS.get_arm_probabilities t c h).
Proof.
  unfold TS.get_arm_probabilities.
  apply reads_bind; [auto with reads|]. intros ds.
  apply reads_bind; [auto with reads|]. intros arms_.
  destruct (negb _); [apply reads_ret | apply reads_mean_arms].
Qed.

Lemma reads_get_best_arm t c h : reads (TS.get_best_arm t c h).
Proof.
  unfold TS.get_best_arm.
  apply reads_bind; [apply reads_get_arm_probabilities|]. intros probs.
  repeat (apply reads_bind; [auto with reads|]; intros ?).
  apply reads_ret.
Qed.

Lemma ts_mean_arms_ext key s s' :
  TS.distributions s' = TS.distributions s ->
  forall todo probabilities,
    value_of (TS.mean_arms key todo probabilities s') =
    value_of (TS.mean_arms key todo probabilities s).
Proof.
  intros Hd. induction todo as [|arm todo IH]; intros probs;
    cbn [TS.mean_arms]; [reflexivity|].
  unfold bind, gets, getitem, TS.py_div, ret, raise. rewrite Hd.
  destruct (dict_get (TS.distributions s) key) as [row|]; [|reflexivity].
  destruct (dict_get row arm) as [p|]; [|reflexivity].
  destruct (feq _ f0); [reflexivity | apply IH].
Qed.

(** [get_arm_probabilities] reads the arm list and the table only. *)
Lemma ts_get_arm_probabilities_ext t c h s s' :
  TS.arms s' = TS.arms s -> TS.distributions s' = TS.distributions s ->
  value_of (TS.get_arm_probabilities t c h s') =
  value_of (TS.get_arm_probabilities t c h s).
Proof.
  intros Ha Hd. unfold TS.get_arm_probabilities.
  unfold bind, gets. rewrite Ha, Hd.
  destruct (negb _); [reflexivity | now apply ts_mean_arms_ext].
Qed.

End BanditFacts.

Section BanditRuns.
Context {F : Type} `{PyFloat F}.
Implicit Types s : TS.agent F.

Lemma ts_init_context_eq key s :
  TS.init_context key s = Ok tt (with_context key s).
Proof. reflexivity. Qed.

Lemma with_context_fields key s :
  TS.arms (with_context key s) = TS.arms s /\
  TS.total_selections (with_context key s) = TS.total_selections s /\
  TS.total_successes (with_context key s) = TS.total_successes s /\
  TS.arm_history (with_context key s) = TS.arm_history s.
Proof.
  unfold with_context. cbn.
  destruct (dict_mem (TS.distributions s) key); repeat split.
Qed.

Lemma with_context_mem key s k :
  dict_mem (TS.distributions (with_context key s)) k =
  String.eqb key k || dict_mem (TS.distributions s) k.
Proof.
  unfold with_context. cbn.
  destruct (dict_mem (TS.distributions s) key) eqn:E.
  - destruct (String.eqb_spec key k) as [<-|]; [now rewrite E | reflexivity].
  - cbn. unfold dict_mem. rewrite dict_get_set.
    destruct (String.eqb key k); reflexivity.
Qed.

Lemma with_context_entry key s k arm :
  ts_entry (with_context key s) k arm =
  if dict_mem (TS.distributions s) key then ts_entry s k arm
  else if String.eqb key k
       then (if in_dec string_dec arm (TS.arms s)
             then Some (TS.mk_params f1 f1) else None)
       else ts_entry s k arm.
Proof.
  unfold with_context, ts_entry. cbn.
  destruct (dict_mem (TS.distributions s) key) eqn:E; [reflexivity|].
  cbn. rewrite dict_get_set.
  destruct (String.eqb key k); [now rewrite dict_get_comp | reflexivity].
Qed.

(** An entry that is there stays as it is. *)
Lemma with_context_keeps key s k arm p :
  ts_entry s k arm = Some p -> ts_entry (with_context key s) k arm = Some p.
Proof.
  intros Hp. rewrite with_context_entry.
  destruct (dict_mem (TS.distributions s) key) eqn:E; [exact Hp|].
  destruct (String.eqb_spec key k) as [<-|]; [|exact Hp].
  apply dict_mem_false in E. unfold ts_entry in Hp. now rewrite E in Hp.
Qed.

(** The state [store key arm p] leaves when the row is there. *)
Lemma ts_store_run key arm p s row :
  dict_get (TS.distributions s) key = Some row ->
  exists s2, TS.store key arm p s = Ok tt s2 /\
    TS.arms s2 = TS.arms s /\
    TS.total_selections s2 = TS.total_selections s /\
    TS.total_successes s2 = TS.total_successes s /\
    TS.arm_history s2 = TS.arm_history s /\
    (forall k, dict_mem (TS.distributions s2) k
               = dict_mem (TS.distributions s) k) /\
    (forall k a, ts_entry s2 k a =
                 if String.eqb key k && String.eqb arm a then Some p
                 else ts_entry s k a).
Proof.
  intros Hrow. unfold TS.store, bind, gets, getitem. rewrite Hrow. cbn.
  eexists. split; [reflexivity|]. cbn. repeat split.
  - intros k. unfold dict_mem. rewrite dict_get_set.
    destruct (String.eqb_spec key k) as [<-|]; [now rewrite Hrow | reflexivity].
  - intros k a. unfold ts_entry. cbn. rewrite dict_get_set.
    destruct (String.eqb_spec key k) as [<-|]; cbn; [|reflexivity].
    rewrite dict_get_set, Hrow. reflexivity.
Qed.

Lemma ts_update_run t c h arm got s :
  let key := TS._get_context_key t c h in
  match ts_entry (with_context key s) key arm with
  | Some p =>
      exists s2, TS.update t c h arm got s = Ok tt s2 /\
        TS.arms s2 = TS.arms s /\
        TS.total_selections s2 = TS.total_selections s /\
        TS.total_successes s2 =
          TS.total_successes s + (if got then 1 else 0) /\
        TS.arm_history s2 = TS.arm_history s /\
        (forall k, dict_mem (TS.distributions s2) k
                   = dict_mem (TS.distributions (with_context key s)) k) /\
        (forall k a, ts_entry s2 k a =
                     if String.eqb key k && String.eqb arm a
                     then Some (bump got p)
                     else ts_entry (with_context key s) k a)
  | None =>
      TS.update t c h arm got s = Raise KeyError (with_context key s)
  end.
Proof.
  intros key.
  destruct (with_context_fields key s) as (Ha & Hsel & Hsuc & Hhist).
  assert (Hmem : dict_mem (TS.distributions (with_context key s)) key = true).
  { rewrite with_context_mem, String.eqb_refl. reflexivity. }
  apply dict_mem_true in Hmem. destruct Hmem as [row Hrow].
  assert (Hstart :
    TS.update t c h arm got s =
    match dict_get row arm with
    | Some p =>
        (if got
         then bind (TS.store key arm (bump true p))
                (fun _ => modify (fun s =>
                   TS.mk_agent (TS.arms s) (TS.distributions s)
                     (TS.total_selections s) (TS.total_successes s + 1)
                     (TS.arm_history s)))
         else TS.store key arm (bump false p)) (with_context key s)
    | None => Raise KeyError (with_context key s)
    end).
  { unfold TS.update. fold key.
    unfold bind at 1. rewrite ts_init_context_eq.
    unfold bind at 1. cbn [gets]. unfold bind at 1. unfold getitem at 1.
    rewrite Hrow. cbn [ret]. unfold bind at 1. unfold getitem at 1.
    destruct (dict_get row arm); [|reflexivity]. cbn [ret].
    destruct got; reflexivity. }
  rewrite Hstart. clear Hstart.
  unfold ts_entry at 1. rewrite Hrow.
  destruct (dict_get row arm) as [p|] eqn:Hp; [|reflexivity].
  destruct (ts_store_run key arm (bump got p) (with_context key s) Hrow)
    as (s2 & Hst & Ha2 & Hsel2 & Hsuc2 & Hh2 & Hm2 & He2).
  destruct got.
  - unfold bind. rewrite Hst. cbn.
    eexists. split; [reflexivity|]. cbn.
    repeat split; try congruence; assumption.
  - rewrite Hst. eexists. split; [reflexivity|].
    repeat split; try congruence; try assumption. lia.
Qed.

(** [select_arm], one step at a time. *)
Lemma ts_select_arm_eq t c h draw s :
  let key := TS._get_context_key t c h in
  let s1 := with_context key s in
  TS.select_arm t c h draw s =
  match TS.sample_arms key draw 0 (TS.arms s1) [] s1 with
  | Ok samples _ =>
      match py_max_key opt_gt (dict_get samples) (dict_keys samples) with
      | Some selected_arm =>
          Ok selected_arm
             (TS.mk_agent (TS.arms s1) (TS.distributions s1)
                (TS.total_selections s1 + 1) (TS.total_successes s1)
                (TS.arm_history s1
                   ++ [TS.mk_selection key selected_arm samples]))
      | None => Raise ValueError s1
      end
  | Raise e _ => Raise e s1
  end.
Proof.
  intros key s1. unfold TS.select_arm. fold key.
  unfold bind at 1. rewrite ts_init_context_eq. fold s1.
  unfold bind at 1. cbn [gets]. unfold bind at 1.
  pose proof (reads_sample_arms key draw (TS.arms s1) 0 [] s1) as R.
  destruct (TS.sample_arms key draw 0 (TS.arms s1) [] s1)
    as [samples s2|e s2]; cbn in R; subst s2; [|reflexivity].
  unfold bind, max_or_raise.
  destruct (py_max_key opt_gt (dict_get samples) (dict_keys samples));
    reflexivity.
Qed.

(** What [select_arm] leaves behind: the table [init_context] left, the
    success counter as it was, and the selection counter one higher
    exactly when the call returns. *)
Lemma ts_select_arm_shape t c h draw s :
  let r := TS.select_arm t c h draw s in
  TS.arms (state_of r) = TS.arms s /\
  TS.distributions (state_of r) =
    TS.distributions (with_context (TS._get_context_key t c h) s) /\
  TS.total_successes (state_of r) = TS.total_successes s /\
  TS.total_selections (state_of r) =
    TS.total_selections s + (if returns r then 1 else 0).
Proof.
  cbn zeta. rewrite ts_select_arm_eq. cbn zeta.
  set (key := TS._get_context_key t c h).
  destruct (with_context_fields key s) as (Ha & Hsel & Hsuc & _).
  destruct (TS.sample_arms key draw 0 _ [] _) as [samples s2|e s2];
    [destruct (py_max_key opt_gt (dict_get samples) (dict_keys samples))|];
    cbn [state_of returns TS.arms TS.distributions TS.total_successes
         TS.total_selections];
    rewrite ?Z.add_0_r; repeat split; congruence.
Qed.

End BanditRuns.

Section BanditInvariant.
Context {F : Type} `{FloatUnit F}.
Implicit Types s : TS.agent F.

Lemma params_ge_one_prior : params_ge_one (TS.mk_params (F := F) f1 f1).
Proof. split; apply one_le_one. Qed.

Lemma params_ge_one_bump got (p : TS.params F) :
  params_ge_one p -> params_ge_one (bump got p).
Proof.
  intros [Ha Hb]. destruct got; split; cbn; auto using one_le_succ.
Qed.

Lemma params_le_refl (p : TS.params F) : params_ge_one p -> params_le p p.
Proof. intros [Ha Hb]. split; now apply one_le_refl. Qed.

Lemma params_le_bump got (p : TS.params F) :
  params_ge_one p -> params_le p (bump got p).
Proof.
  intros [Ha Hb]. destruct got; split; cbn;
    auto using le_succ, one_le_refl.
Qed.

(** The invariant reads the arm list and the table only. *)
Lemma ts_ok_ext s s' :
  TS.arms s' = TS.arms s -> TS.distributions s' = TS.distributions s ->
  ts_ok s -> ts_ok s'.
Proof.
  unfold ts_ok, ts_entry. intros -> ->. auto.
Qed.

Lemma ts_with_context_ok key s : ts_ok s -> ts_ok (with_context key s).
Proof.
  intros (Hne & Hfull & Hge).
  destruct (with_context_fields key s) as (Ha & _).
  split; [now rewrite Ha|]. split.
  - intros k arm. rewrite Ha, with_context_mem, with_context_entry.
    intros Hmem Harm.
    destruct (dict_mem (TS.distributions s) key) eqn:E.
    + apply Hfull; [|exact Harm].
      destruct (String.eqb_spec key k) as [<-|]; [exact E | exact Hmem].
    + destruct (String.eqb key k).
      * destruct (in_dec string_dec arm (TS.arms s)); [eauto | contradiction].
      * now apply Hfull.
  - intros k arm p. rewrite with_context_entry.
    destruct (dict_mem (TS.distributions s) key); [apply Hge|].
    destruct (String.eqb key k); [|apply Hge].
    destruct (in_dec string_dec arm (TS.arms s)); [|discriminate].
    intros [= <-]. apply params_ge_one_prior.
Qed.

Lemma ts_update_ok t c h arm got s :
  ts_ok s -> ts_ok (state_of (TS.update t c h arm got s)).
Proof.
  intros Hok. pose proof (ts_update_run t c h arm got s) as Hrun.
  cbn zeta in Hrun.
  pose proof (ts_with_context_ok (TS._get_context_key t c h) Hok) as Hok1.
  set (key := TS._get_context_key t c h) in *.
  destruct (ts_entry (with_context key s) key arm) as [p|] eqn:Hp.
  - destruct Hrun as (s2 & -> & Ha & _ & _ & _ & Hm & He). cbn.
    destruct Hok1 as (Hne & Hfull & Hge).
    destruct (with_context_fields key s) as (Ha1 & _).
    split; [congruence|]. split.
    + intros k a. rewrite Hm, He, Ha, <- Ha1. intros Hk Hin.
      destruct (String.eqb key k && String.eqb arm a); eauto.
    + intros k a q. rewrite He.
      destruct (String.eqb key k && String.eqb arm a); [|apply Hge].
      intros [= <-]. apply params_ge_one_bump. eapply Hge; eassumption.
  - rewrite Hrun. exact Hok1.
Qed.

Lemma ts_sample_arms_returns key draw s :
  ts_ok s -> dict_mem (TS.distributions s) key = true ->
  forall todo i samples,
    (forall a, In a todo -> In a (TS.arms s)) ->
    exists samples',
      TS.sample_arms key draw i todo samples s = Ok samples' s /\
      (todo <> [] \/ samples <> [] -> samples' <> []).
Proof.
  intros (Hne & Hfull & Hge) Hmem.
  induction todo as [|arm todo IH]; intros i samples Hsub;
    cbn [TS.sample_arms].
  - exists samples. split; [reflexivity|]. intros [?|?]; congruence.
  - destruct (Hfull key arm Hmem (Hsub arm (or_introl eq_refl))) as [p Hp].
    destruct (Hge _ _ _ Hp) as [Halpha Hbeta].
    unfold ts_entry in Hp.
    destruct (dict_get (TS.distributions s) key) as [row|] eqn:Hrow;
      [|discriminate].
    destruct (IH (S i) (dict_set samples arm (draw i)))
      as (samples' & Hrun & Hnil).
    { intros a Ha. apply Hsub. now right. }
    exists samples'. split.
    + unfold bind, gets, getitem, TS.np_random_beta. rewrite Hrow. cbn.
      rewrite Hp. cbn.
      rewrite (one_le_pos _ Halpha), (one_le_pos _ Hbeta). cbn. exact Hrun.
    + intros _. apply Hnil. right. apply dict_set_not_nil.
Qed.

Lemma ts_select_arm_returns t c h draw s :
  ts_ok s -> returns (TS.select_arm t c h draw s) = true.
Proof.
  intros Hok.
  set (key := TS._get_context_key t c h).
  pose proof (ts_with_context_ok key Hok) as Hok1.
  assert (Hmem : dict_mem (TS.distributions (with_context key s)) key = true).
  { rewrite with_context_mem, String.eqb_refl. reflexivity. }
  destruct (@ts_sample_arms_returns key draw _ Hok1 Hmem
              (TS.arms (with_context key s)) 0%nat [] (fun a Ha => Ha))
    as (samples & Hrun & Hnil).
  assert (Hs : samples <> []) by (apply Hnil; left; apply Hok1).
  rewrite ts_select_arm_eq. cbn zeta. fold key. rewrite Hrun.
  destruct samples as [|[a x] samples]; [congruence|]. reflexivity.
Qed.

Lemma ts_select_arm_ok t c h draw s :
  ts_ok s -> ts_ok (state_of (TS.select_arm t c h draw s)).
Proof.
  intros Hok.
  destruct (ts_select_arm_shape t c h draw s) as (Ha & Hd & _).
  destruct (with_context_fields (TS._get_context_key t c h) s) as (Ha1 & _).
  eapply ts_ok_ext; [| exact Hd | apply ts_with_context_ok; exact Hok].
  congruence.
Qed.

Lemma ts_step_ok s s' : ts_step s s' -> ts_ok s -> ts_ok s'.
Proof.
  intros Hstep Hok. destruct Hstep.
  - now apply ts_select_arm_ok.
  - now apply ts_update_ok.
  - now rewrite reads_get_arm_probabilities.
  - now rewrite reads_get_best_arm.
  - eapply ts_ok_ext; [| |exact Hok]; reflexivity.
Qed.

Lemma ts_reachable_ok s : ts_reachable s -> ts_ok s.
Proof.
  induction 1 as [|s s' _ IH Hstep].
  - split; [discriminate|]. split.
    + intros k arm [=].
    + intros k arm p [=].
  - eapply ts_step_ok; eassumption.
Qed.

(** No operation lowers a parameter. *)
Lemma ts_step_grows s s' :
  ts_step s s' -> ts_ok s ->
  forall k arm p, ts_entry s k arm = Some p ->
    exists p', ts_entry s' k arm = Some p' /\ params_le p p'.
Proof.
  intros Hstep Hok k arm p Hp.
  assert (Hge : params_ge_one p) by (eapply Hok; eassumption).
  destruct Hstep.
  - destruct (ts_select_arm_shape t c h draw s) as (_ & Hd & _).
    exists p. split; [|now apply params_le_refl].
    unfold ts_entry. rewrite Hd. now apply with_context_keeps.
  - pose proof (ts_update_run t c h arm0 got s) as Hrun. cbn zeta in Hrun.
    set (key := TS._get_context_key t c h) in *.
    pose proof (with_context_keeps key _ _ _ Hp) as Hp1.
    destruct (ts_entry (with_context key s) key arm0) as [q|] eqn:Hq.
    + destruct Hrun as (s2 & -> & _ & _ & _ & _ & _ & He). cbn.
      rewrite He.
      destruct (String.eqb_spec key k) as [<-|]; cbn.
      * destruct (String.eqb_spec arm0 arm) as [<-|]; cbn.
        -- exists (bump got q). split; [reflexivity|].
           assert (q = p) by congruence. subst q.
           now apply params_le_bump.
        -- exists p. split; [exact Hp1 | now apply params_le_refl].
      * exists p. split; [exact Hp1 | now apply params_le_refl].
    + rewrite Hrun. cbn. exists p. split; [exact Hp1|].
      now apply params_le_refl.
  - rewrite reads_get_arm_probabilities. exists p.
    split; [exact Hp | now apply params_le_refl].
  - rewrite reads_get_best_arm. exists p.
    split; [exact Hp | now apply params_le_refl].
  - exists p. split; [exact Hp | now apply params_le_refl].
Qed.

End BanditInvariant.

#[export] Instance FloatUnit_Q : FloatUnit Q.
Proof.
  split; cbn [fle fadd f0 f1 PyFloat_Q].
  - reflexivity.
  - intros x Hx. apply Qle_bool_iff in Hx.
    destruct (Qle_bool x 0) eqn:E; [|reflexivity].
    apply Qle_bool_iff in E. lra.
  - intros x _. apply Qle_bool_iff. lra.
  - intros x Hx. apply Qle_bool_iff in Hx. apply Qle_bool_iff. lra.
  - intros x _. apply Qle_bool_iff. lra.
Qed.

(* ------------------------------------------------------------------ *)
(** ** The bandit's counters and parameters *)

Section BanditTheorems.
Context {F : Type} `{FloatUnit F}.
Implicit Types s : TS.agent F.

Lemma ts_step_arms s s' : ts_step s s' -> TS.arms s' = TS.arms s.
Proof.
  intros Hstep. destruct Hstep.
  - apply ts_select_arm_shape.
  - pose proof (ts_update_run t c h arm got s) as Hrun. cbn zeta in Hrun.
    destruct (ts_entry _ _ arm).
    + destruct Hrun as (s2 & -> & Ha & _). exact Ha.
    + rewrite Hrun. apply with_context_fields.
  - now rewrite reads_get_arm_probabilities.
  - now rewrite reads_get_best_arm.
  - reflexivity.
Qed.

Lemma ts_reachable_arms s : ts_reachable s -> TS.arms s = TS.default_arms.
Proof.
  induction 1 as [|s s' _ IH Hstep]; [reflexivity|].
  rewrite (ts_step_arms Hstep). exact IH.
Qed.

(** C3. On a reachable bandit [select_arm] returns and raises
    [total_selections] by exactly one, leaving [total_successes];
    [update] with one of the arms returns, leaves [total_selections]
    and raises [total_successes] by one exactly when the flag is true;
    and no [update], returning or raising, touches
    [total_selections]. *)
Theorem ts_selection_counted_once s :
  ts_reachable s ->
  (forall t c h draw, exists arm s',
     TS.select_arm t c h draw s = Ok arm s' /\
     TS.total_selections s' = TS.total_selections s + 1 /\
     TS.total_successes s' = TS.total_successes s) /\
  (forall t c h arm got, In arm (TS.arms s) -> exists s',
     TS.update t c h arm got s = Ok tt s' /\
     TS.total_selections s' = TS.total_selections s /\
     TS.total_successes s' =
       TS.total_successes s + (if got then 1 else 0)) /\
  (forall t c h arm got,
     TS.total_selections (state_of (TS.update t c h arm got s)) =
     TS.total_selections s).
Proof.
  intros Hreach. apply ts_reachable_ok in Hreach. split; [|split].
  - intros t c h draw.
    pose proof (ts_select_arm_returns t c h draw Hreach) as Hret.
    destruct (ts_select_arm_shape t c h draw s) as (_ & _ & Hsuc & Hsel).
    destruct (TS.select_arm t c h draw s) as [arm s'|e s'];
      [|discriminate].
    exists arm, s'. cbn in Hsuc, Hsel. auto.
  - intros t c h arm got Harm.
    pose proof (ts_update_run t c h arm got s) as Hrun. cbn zeta in Hrun.
    set (key := TS._get_context_key t c h) in *.
    destruct (ts_with_context_ok key Hreach) as (_ & Hfull & _).
    destruct (Hfull key arm) as [p Hp].
    { rewrite with_context_mem, String.eqb_refl. reflexivity. }
    { now rewrite (proj1 (with_context_fields key s)). }
    rewrite Hp in Hrun.
    destruct Hrun as (s2 & Hrun & _ & Hsel & Hsuc & _). eauto.
  - intros t c h arm got.
    pose proof (ts_update_run t c h arm got s) as Hrun. cbn zeta in Hrun.
    destruct (ts_entry _ _ arm).
    + destruct Hrun as (s2 & -> & _ & Hsel & _). exact Hsel.
    + rewrite Hrun. apply with_context_fields.
Qed.

(** C8. On a reachable bandit the arms are the fixed three and every
    entry has [alpha >= 1] and [beta >= 1]; a row that is created
    holds [(1, 1)] for every arm and the entries already there are
    kept; [update] with one of the arms returns and replaces that
    arm's entry by [bump]: 1 added to [alpha] (a response) or to
    [beta] (none), the other parameter and every other entry staying
    as they are; and whatever the operation, no entry is removed and
    neither parameter goes down. *)
Theorem ts_parameters_at_least_one s :
  ts_reachable s ->
  TS.arms s = TS.default_arms /\
  (forall k arm p, ts_entry s k arm = Some p -> params_ge_one p) /\
  (forall key k arm,
     ts_entry (with_context key s) k arm =
     if dict_mem (TS.distributions s) key then ts_entry s k arm
     else if String.eqb key k
          then (if in_dec string_dec arm (TS.arms s)
                then Some (TS.mk_params f1 f1) else None)
          else ts_entry s k arm) /\
  (forall t c h arm got, In arm (TS.arms s) ->
     exists p s',
       ts_entry (with_context (TS._get_context_key t c h) s)
                (TS._get_context_key t c h) arm = Some p /\
       TS.update t c h arm got s = Ok tt s' /\
       forall k a,
         ts_entry s' k a =
         if String.eqb (TS._get_context_key t c h) k && String.eqb arm a
         then Some (bump got p)
         else ts_entry (with_context (TS._get_context_key t c h) s) k a) /\
  (forall s', ts_step s s' ->
     forall k arm p, ts_entry s k arm = Some p ->
       exists p', ts_entry s' k arm = Some p' /\ params_le p p').
Proof.
  intros Hreach. split; [now apply ts_reachable_arms|].
  apply ts_reachable_ok in Hreach. split; [apply Hreach|].
  split; [intros; apply with_context_entry|]. split.
  - intros t c h arm got Harm.
    pose proof (ts_update_run t c h arm got s) as Hrun. cbn zeta in Hrun.
    set (key := TS._get_context_key t c h) in *.
    destruct (ts_with_context_ok key Hreach) as (_ & Hfull & _).
    destruct (Hfull key arm) as [p Hp].
    { rewrite with_context_mem, String.eqb_refl. reflexivity. }
    { now rewrite (proj1 (with_context_fields key s)). }
    rewrite Hp in Hrun.
    destruct Hrun as (s2 & Hrun & _ & _ & _ & _ & _ & He). eauto.
  - intros s' Hstep. now apply ts_step_grows.
Qed.

End BanditTheorems.

(** In the exact reading the sum [bump] stores is one above the
    parameter it replaces; on binary64 it is that sum rounded to
    nearest. *)
Lemma bump_adds_one_exactly (got : bool) (p : TS.params Q) :
  (TS.alpha (bump got p) - TS.alpha p == if got then 1 else 0)%Q /\
  (TS.beta (bump got p) - TS.beta p == if got then 0 else 1)%Q.
Proof. destruct got; cbn; split; ring. Qed.

Lemma ts_selection_counted_once_fresh :
  (forall t c h draw, exists arm s',
     TS.select_arm t c h draw (TS.__init__ (F := binary64) None)
       = Ok arm s' /\
     TS.total_selections s' = 0 + 1 /\
     TS.total_successes s' = 0) /\
  (forall t c h arm got,
     In arm ["formal"; "casual"; "connection_focused"] ->
     exists s',
       TS.update t c h arm got (TS.__init__ (F := binary64) None)
         = Ok tt s' /\
       TS.total_selections s' = 0 /\
       TS.total_successes s' = 0 + (if got then 1 else 0)) /\
  (forall t c h arm got,
     TS.total_selections
       (state_of (TS.update t c h arm got (TS.__init__ (F := binary64) None)))
     = 0).
Proof.
  exact (@ts_selection_counted_once binary64 _ _ (TS.__init__ None)
           (ts_fresh (F := binary64))).
Defined.

Lemma ts_parameters_at_least_one_after_update :
  TS.arms ts_after_one = TS.default_arms /\
  (forall k arm p, ts_entry ts_after_one k arm = Some p -> params_ge_one p) /\
  (forall key k arm,
     ts_entry (with_context key ts_after_one) k arm =
     if dict_mem (TS.distributions ts_after_one) key
     then ts_entry ts_after_one k arm
     else if String.eqb key k
          then (if in_dec string_dec arm (TS.arms ts_after_one)
                then Some (TS.mk_params f1 f1) else None)
          else ts_entry ts_after_one k arm) /\
  (forall t c h arm got, In arm (TS.arms ts_after_one) ->
     exists p s',
       ts_entry (with_context (TS._get_context_key t c h) ts_after_one)
                (TS._get_context_key t c h) arm = Some p /\
       TS.update t c h arm got ts_after_one = Ok tt s' /\
       forall k a,
         ts_entry s' k a =
         if String.eqb (TS._get_context_key t c h) k && String.eqb arm a
         then Some (bump got p)
         else ts_entry (with_context (TS._get_context_key t c h)
                                     ts_after_one) k a) /\
  (forall s', ts_step ts_after_one s' ->
     forall k arm p, ts_entry ts_after_one k arm = Some p ->
       exists p', ts_entry s' k arm = Some p' /\ params_le p p').
Proof.
  exact (@ts_parameters_at_least_one binary64 _ _ ts_after_one
           (ts_next ts_fresh
              (ts_step_update (TS.__init__ None)
                 "Recruiter" "casual" true "casual" true))).
Defined.

(** C9. When the context's key is not in the table of a bandit with
    the standard arms, [get_arm_probabilities] returns 0.5 for each of
    the three arms and the bandit it leaves is the one it found: same
    table, same counters. *)
Theorem ts_probabilities_unseen_context {F : Type} `{PyFloat F}
    (s : TS.agent F) (t c : string) (h : bool) :
  TS.arms s = TS.default_arms ->
  dict_get (TS.distributions s) (TS._get_context_key t c h) = None ->
  TS.get_arm_probabilities t c h s =
    Ok [("formal", fhalf); ("casual", fhalf); ("connection_focused", fhalf)]
       s.
Proof.
  intros Harms Hnew. unfold TS.get_arm_probabilities, bind, gets.
  unfold dict_mem. rewrite Hnew, Harms. reflexivity.
Qed.

Lemma ts_probabilities_unseen_context_fresh :
  TS.get_arm_probabilities "Director of Data" "mixed" true
      (TS.__init__ (F := binary64) None) =
    Ok [("formal", 0.5%float); ("casual", 0.5%float);
        ("connection_focused", 0.5%float)]
       (TS.__init__ None).
Proof.
  exact (@ts_probabilities_unseen_context binary64 _ (TS.__init__ None)
           "Director of Data" "mixed" true eq_refl eq_refl).
Defined.

(* ------------------------------------------------------------------ *)
(** ** Serialise, then load into a fresh instance *)

Section RoundTripTheorem.
Context {F : Type} `{PyFloat F}.

Lemma ts_update_arm_history t c h arm got (s : TS.agent F) :
  TS.arm_history (state_of (TS.update t c h arm got s)) = TS.arm_history s.
Proof.
  pose proof (ts_update_run t c h arm got s) as Hrun. cbn zeta in Hrun.
  destruct (ts_entry _ _ arm).
  - destruct Hrun as (s2 & -> & _ & _ & _ & Hh & _). exact Hh.
  - rewrite Hrun. apply with_context_fields.
Qed.

Lemma ts_run_arm_history calls : forall s : TS.agent F,
  TS.arm_history (ts_run calls s) = TS.arm_history s.
Proof.
  unfold ts_run.
  induction calls as [|c calls IH]; intros s; cbn [fold_left];
    [reflexivity|].
  rewrite IH. apply ts_update_arm_history.
Qed.

(** Whatever the scheduler, the rebuilt one answers [get_best_action]
    alike and ends with the same table. *)
Lemma ql_round_trip_any (s : QL.agent F) now a g e d c h :
  let s' := QL.__init__ a g e (Some (QL.to_dict now s)) in
  value_of (QL.get_best_action d c h s') =
    value_of (QL.get_best_action d c h s) /\
  QL.q_table (state_of (QL.get_best_action d c h s')) =
    QL.q_table (state_of (QL.get_best_action d c h s)).
Proof. apply ql_get_best_action_ext; reflexivity. Qed.

(** Whatever the bandit, selections made or not, the rebuilt one
    answers [get_arm_probabilities] alike. *)
Lemma ts_round_trip_any (b : TS.agent F) now t c h :
  value_of (TS.get_arm_probabilities t c h
              (TS.__init__ (Some (TS.to_dict now b)))) =
  value_of (TS.get_arm_probabilities t c h b).
Proof. apply ts_get_arm_probabilities_ext; reflexivity. Qed.

(** C5. Take a fresh scheduler, or bandit, and apply any sequence of
    updates.  Serialising the result with [to_dict] and loading the
    dictionary into a freshly constructed instance, through the
    constructor's argument or through [load_from_dict], gives back the
    very same instance; so [get_best_action] and
    [get_arm_probabilities] answer the same on both, for every state
    and context. *)
Theorem round_trip_same_answers :
  (forall (a g e a' g' e' : F) (calls : list ql_call) (now : string),
     let s := ql_run calls (QL.__init__ a g e None) in
     QL.__init__ a' g' e' (Some (QL.to_dict now s)) = s /\
     state_of (QL.load_from_dict (QL.to_dict now s)
                                 (QL.__init__ a' g' e' None)) = s /\
     forall d c h,
       QL.get_best_action d c h
         (QL.__init__ a' g' e' (Some (QL.to_dict now s))) =
       QL.get_best_action d c h s) /\
  (forall (calls : list ts_call) (now : string),
     let b := ts_run calls (TS.__init__ (F := F) None) in
     TS.__init__ (Some (TS.to_dict now b)) = b /\
     state_of (TS.load_from_dict (TS.to_dict now b) (TS.__init__ None)) = b /\
     forall t c h,
       TS.get_arm_probabilities t c h
         (TS.__init__ (Some (TS.to_dict now b))) =
       TS.get_arm_probabilities t c h b).
Proof.
  split.
  - intros a g e a' g' e' calls now s.
    assert (Hs : QL.__init__ a' g' e' (Some (QL.to_dict now s)) = s).
    { rewrite ql_reload_eq.
      pose proof (ql_run_episode_rewards calls (QL.__init__ a g e None))
        as Hrew. fold s in Hrew. cbn in Hrew.
      destruct s; cbn in *. now subst. }
    split; [exact Hs|]. split; [exact Hs|].
    intros d c h. now rewrite Hs.
  - intros calls now b.
    assert (Hb : TS.__init__ (Some (TS.to_dict now b)) = b).
    { pose proof (ts_run_arm_history calls (TS.__init__ (F := F) None))
        as Hh. fold b in Hh. cbn in Hh.
      destruct b; cbn in *. now subst. }
    split; [exact Hb|]. split; [exact Hb|].
    intros t c h. now rewrite Hb.
Qed.

End RoundTripTheorem.

(* ------------------------------------------------------------------ *)
(** ** The summary of an empty table *)

(** C6, evaluated. On a scheduler whose table is empty
    [get_q_table_summary] returns a dictionary with three keys: the
    mean is 0.0, and there is no "max_q_value" and no "min_q_value" to
    read. *)
Theorem ql_summary_empty_has_no_max_min {F : Type} `{PyFloat F}
    (np_mean np_max np_min : list F -> F) (a g e : F) :
  QL.get_q_table_summary np_mean np_max np_min (QL.__init__ a g e None) =
    [("total_states", VInt 0); ("total_updates", VInt 0);
     ("avg_q_value", VFloat f0)] /\
  dict_get (QL.get_q_table_summary np_mean np_max np_min
              (QL.__init__ a g e None)) "max_q_value" = None /\
  dict_get (QL.get_q_table_summary np_mean np_max np_min
              (QL.__init__ a g e None)) "min_q_value" = None.
Proof. repeat split. Qed.

(** The other branch of the same method reports all three statistics,
    and falls back to 0.0 when the rows hold no value. *)
Lemma ql_summary_nonempty_has_max_min {F : Type} `{PyFloat F}
    (np_mean np_max np_min : list F -> F) (s : QL.agent F) :
  QL.q_table s <> [] ->
  exists x y z,
    dict_get (QL.get_q_table_summary np_mean np_max np_min s) "avg_q_value"
      = Some (VFloat x) /\
    dict_get (QL.get_q_table_summary np_mean np_max np_min s) "max_q_value"
      = Some (VFloat y) /\
    dict_get (QL.get_q_table_summary np_mean np_max np_min s) "min_q_value"
      = Some (VFloat z) /\
    (flat_map (fun row => dict_values row) (dict_values (QL.q_table s)) = [] ->
     x = f0 /\ y = f0 /\ z = f0).
Proof.
  intros Hne. unfold QL.get_q_table_summary.
  destruct (QL.q_table s) as [|kr rows] eqn:E; [congruence|].
  do 3 eexists. split; [reflexivity|]. split; [reflexivity|].
  split; [reflexivity|]. intros ->. repeat split.
Qed.

(* ------------------------------------------------------------------ *)
(** ** The title classifier *)

Lemma prefix_app (w rest : string) : String.prefix w (w ++ rest) = true.
Proof.
  induction w as [|a w IH]; simpl; [now destruct rest|].
  destruct (ascii_dec a a); [exact IH | congruence].
Qed.

Lemma prefix_inv (w : string) : forall t,
  String.prefix w t = true -> exists rest, t = w ++ rest.
Proof.
  induction w as [|a w IH]; intros t Hp.
  - exists t. reflexivity.
  - destruct t as [|b t]; [discriminate|]. simpl in Hp.
    destruct (ascii_dec a b) as [->|]; [|discriminate].
    destruct (IH t Hp) as [rest ->]. exists rest. reflexivity.
Qed.

(** [contains] is the substring test. *)
Lemma contains_spec (w t : string) :
  contains w t = true <-> exists before after, t = before ++ w ++ after.
Proof.
  split.
  - induction t as [|c t IH]; cbn [contains].
    + destruct (String.prefix w "") eqn:E; [|discriminate].
      intros _. apply prefix_inv in E. destruct E as [rest E].
      exists "", rest. exact E.
    + destruct (String.prefix w (String c t)) eqn:E.
      * intros _. apply prefix_inv in E. destruct E as [rest E].
        exists "", rest. exact E.
      * intros Hc. destruct (IH Hc) as (before & after & ->).
        exists (String c before), after. reflexivity.
  - intros (before & after & ->).
    induction before as [|c before IH].
    + change ("" ++ w ++ after) with (w ++ after).
      destruct (w ++ after) eqn:E; cbn [contains];
        rewrite <- E, prefix_app; reflexivity.
    + change (String c before ++ w ++ after)
        with (String c (before ++ w ++ after)).
      cbn [contains]. now destruct (String.prefix w _).
Qed.

Lemma lower_app (a b : string) : lower (a ++ b) = lower a ++ lower b.
Proof. induction a as [|c a IH]; simpl; [reflexivity | now rewrite IH]. Qed.

(** C7. The four groups are tried in the order recruiter, executive,
    director, manager: a title is given the category of the first
    group that has one of its words in the lowercased title.
    "VP of Talent Acquisition" has a word of the recruiter group
    and a word of the executive group; it is a recruiter. *)
Theorem title_first_matching_group_wins :
  (forall t, any_in TS.recruiter_words (lower t) = true ->
             TS.title_category t = "recruiter") /\
  (forall t, any_in TS.recruiter_words (lower t) = false ->
             any_in TS.executive_words (lower t) = true ->
             TS.title_category t = "executive") /\
  (forall t, any_in TS.recruiter_words (lower t) = false ->
             any_in TS.executive_words (lower t) = false ->
             any_in TS.director_words (lower t) = true ->
             TS.title_category t = "director") /\
  (forall t, any_in TS.recruiter_words (lower t) = false ->
             any_in TS.executive_words (lower t) = false ->
             any_in TS.director_words (lower t) = false ->
             TS.title_category t = "manager") /\
  any_in TS.recruiter_words (lower "VP of Talent Acquisition") = true /\
  any_in TS.executive_words (lower "VP of Talent Acquisition") = true /\
  TS.title_category "VP of Talent Acquisition" = "recruiter" /\
  (forall culture conn,
     TS._get_context_key "VP of Talent Acquisition" culture conn =
     "recruiter_" ++ culture ++ "_" ++ str_bool conn).
Proof.
  unfold TS.title_category.
  repeat split; try reflexivity; intros t;
    repeat (let E := fresh in intros E; rewrite E); reflexivity.
Qed.

(** C10. Keywords are looked for as substrings of the lowercased
    title: whenever the letters "hr" occur in it, in any case and in
    any word, the title is a recruiter, whatever other group it
    matches.  "Chrome Lead" matches the director group through
    "lead", "VP Chrome" the executive group through "vp"; both are
    recruiters. *)
Theorem title_with_hr_is_recruiter :
  (forall t, contains "hr" (lower t) = true ->
             TS.title_category t = "recruiter") /\
  (forall before hr after, lower hr = "hr" ->
     TS.title_category (before ++ hr ++ after) = "recruiter") /\
  contains "hr" (lower "Chrome Lead") = true /\
  any_in TS.director_words (lower "Chrome Lead") = true /\
  TS.title_category "Chrome Lead" = "recruiter" /\
  any_in TS.executive_words (lower "VP Chrome") = true /\
  TS.title_category "VP Chrome" = "recruiter".
Proof.
  assert (Hhr : forall t, contains "hr" (lower t) = true ->
                          TS.title_category t = "recruiter").
  { intros t Hc. unfold TS.title_category, any_in, TS.recruiter_words.
    cbn [existsb]. rewrite Hc, !orb_true_r. reflexivity. }
  split; [exact Hhr|]. split; [|repeat split].
  intros before hr after Hl. apply Hhr. rewrite !lower_app, Hl.
  apply contains_spec. eauto.
Qed.

(* ================================================================== *)
(** * Further properties *)

(* ------------------------------------------------------------------ *)
(** ** The scheduler's keys *)

Lemma append_inv_head (a b c : string) : a ++ b = a ++ c -> b = c.
Proof. induction a as [|x a IH]; simpl; [auto | intros [= E]; auto]. Qed.

Lemma append_assoc (a b c : string) : (a ++ b) ++ c = a ++ b ++ c.
Proof. induction a as [|x a IH]; simpl; [reflexivity | now rewrite IH]. Qed.

Lemma length_append (a b : string) :
  String.length (a ++ b) = (String.length a + String.length b)%nat.
Proof. induction a as [|x a IH]; simpl; [reflexivity | now rewrite IH]. Qed.

Lemma append_inv_tail (a b c : string) : a ++ c = b ++ c -> a = b.
Proof.
  revert b. induction a as [|x a IH]; intros [|y b] E; simpl in E.
  - reflexivity.
  - apply (f_equal String.length) in E. simpl in E.
    rewrite length_append in E. lia.
  - apply (f_equal String.length) in E. simpl in E.
    rewrite length_append in E. lia.
  - injection E as -> E. f_equal. now apply IH.
Qed.

(** A text followed by [_True] is never a text followed by [_False]. *)
Lemma flag_suffix_differs (a b : string) : a ++ "_True" <> b ++ "_False".
Proof.
  revert b. induction a as [|x a IH]; intros b E.
  - apply (f_equal String.length) in E. rewrite !length_append in E.
    simpl in E. lia.
  - destruct b as [|y b]; simpl in E.
    + injection E as _ E. destruct a as [|x1 a]; [discriminate|].
      apply (f_equal String.length) in E. simpl in E.
      rewrite length_append in E. simpl in E. lia.
    + injection E as _ E. exact (IH b E).
Qed.

Lemma flag_suffix_inj (a b : string) (h h' : bool) :
  a ++ "_" ++ str_bool h = b ++ "_" ++ str_bool h' -> a = b /\ h = h'.
Proof.
  destruct h, h'; cbn [str_bool append]; intros E.
  - split; [eapply append_inv_tail; exact E | reflexivity].
  - exfalso. exact (flag_suffix_differs _ _ E).
  - exfalso. symmetry in E. exact (flag_suffix_differs _ _ E).
  - split; [eapply append_inv_tail; exact E | reflexivity].
Qed.

Lemma get_state_key_bucket d c h :
  QL._get_state_key d c h = day_bucket d ++ "_" ++ c ++ "_" ++ str_bool h.
Proof.
  unfold QL._get_state_key, day_bucket.
  destruct (d <=? 2); [reflexivity|]. destruct (d <=? 5); [reflexivity|].
  destruct (d <=? 10); reflexivity.
Qed.

Lemma day_bucket_cases d :
  day_bucket d = "0-2" \/ day_bucket d = "3-5" \/
  day_bucket d = "6-10" \/ day_bucket d = "11+".
Proof.
  unfold day_bucket. destruct (d <=? 2); [tauto|].
  destruct (d <=? 5); [tauto|]. destruct (d <=? 10); tauto.
Qed.

(** X1. Two states have the same key exactly when their days fall in
    the same bucket and the company types and connection flags are
    equal: distinct buckets, companies or flags never collide, whatever
    text the company type is. *)
Theorem ql_state_key_injective (d d' : Z) (c c' : string) (h h' : bool) :
  QL._get_state_key d c h = QL._get_state_key d' c' h' <->
  day_bucket d = day_bucket d' /\ c = c' /\ h = h'.
Proof.
  rewrite !get_state_key_bucket. split.
  - intros E.
    assert (Hb : day_bucket d = day_bucket d').
    { destruct (day_bucket_cases d) as [B|[B|[B|B]]];
        destruct (day_bucket_cases d') as [B'|[B'|[B'|B']]];
        rewrite B, B' in *; try reflexivity; discriminate. }
    split; [exact Hb|]. rewrite Hb in E. apply append_inv_head in E.
    cbn [append] in E. injection E as E.
    now apply flag_suffix_inj.
  - intros (-> & -> & ->). reflexivity.
Qed.

(** The buckets, by their bounds. *)
Lemma day_bucket_bounds d :
  (day_bucket d = "0-2" <-> d <= 2) /\
  (day_bucket d = "3-5" <-> 3 <= d <= 5) /\
  (day_bucket d = "6-10" <-> 6 <= d <= 10) /\
  (day_bucket d = "11+" <-> 11 <= d).
Proof.
  unfold day_bucket.
  destruct (Z.leb_spec d 2); [repeat split; intros; try discriminate; lia|].
  destruct (Z.leb_spec d 5); [repeat split; intros; try discriminate; lia|].
  destruct (Z.leb_spec d 10); repeat split; intros; try discriminate; lia.
Qed.

Lemma title_category_cases t :
  TS.title_category t = "recruiter" \/ TS.title_category t = "executive" \/
  TS.title_category t = "director" \/ TS.title_category t = "manager".
Proof.
  unfold TS.title_category.
  destruct (any_in TS.recruiter_words _); [tauto|].
  destruct (any_in TS.executive_words _); [tauto|].
  destruct (any_in TS.director_words _); tauto.
Qed.

(** X2. Two contexts have the same key exactly when the titles fall in
    the same category and the cultures and connection flags are equal,
    whatever text the culture is. *)
Theorem ts_context_key_injective (t t' c c' : string) (h h' : bool) :
  TS._get_context_key t c h = TS._get_context_key t' c' h' <->
  TS.title_category t = TS.title_category t' /\ c = c' /\ h = h'.
Proof.
  unfold TS._get_context_key. split.
  - intros E.
    assert (Hb : TS.title_category t = TS.title_category t').
    { destruct (title_category_cases t) as [B|[B|[B|B]]];
        destruct (title_category_cases t') as [B'|[B'|[B'|B']]];
        rewrite B, B' in *; try reflexivity; discriminate. }
    split; [exact Hb|]. rewrite Hb in E. apply append_inv_head in E.
    cbn [append] in E. injection E as E.
    now apply flag_suffix_inj.
  - intros (-> & -> & ->). reflexivity.
Qed.

(* ------------------------------------------------------------------ *)
(** ** The scheduler: what [update] writes *)

Lemma dict_keys_set_present {V} (d : dict V) k v :
  In k (dict_keys d) -> dict_keys (dict_set d k v) = dict_keys d.
Proof.
  induction d as [|[k' v'] d IH]; simpl; [tauto|].
  destruct (String.eqb_spec k' k) as [->|Hne]; [reflexivity|].
  intros [?|Hin]; [congruence|]. simpl. now rewrite IH.
Qed.

Section SchedulerRuns.
Context {F : Type} `{PyFloat F}.
Implicit Types s : QL.agent F.

Lemma ql_init_state_eq key s :
  QL.init_state key s = Ok tt (with_state key s).
Proof. reflexivity. Qed.

Lemma with_state_fields key s :
  QL.alpha (with_state key s) = QL.alpha s /\
  QL.gamma (with_state key s) = QL.gamma s /\
  QL.epsilon (with_state key s) = QL.epsilon s /\
  QL.actions (with_state key s) = QL.actions s /\
  QL.total_updates (with_state key s) = QL.total_updates s /\
  QL.episode_rewards (with_state key s) = QL.episode_rewards s.
Proof.
  unfold with_state. cbn.
  destruct (dict_mem (QL.q_table s) key); repeat split.
Qed.

Lemma with_state_mem key s k :
  dict_mem (QL.q_table (with_state key s)) k =
  String.eqb key k || dict_mem (QL.q_table s) k.
Proof.
  unfold with_state. cbn.
  destruct (dict_mem (QL.q_table s) key) eqn:E.
  - destruct (String.eqb_spec key k) as [<-|]; [now rewrite E | reflexivity].
  - cbn. unfold dict_mem. rewrite dict_get_set.
    destruct (String.eqb key k); reflexivity.
Qed.

Lemma with_state_entry key s k a :
  ql_entry (with_state key s) k a =
  if dict_mem (QL.q_table s) key then ql_entry s k a
  else if String.eqb key k
       then (if in_dec string_dec a (QL.actions s) then Some f0 else None)
       else ql_entry s k a.
Proof.
  unfold with_state, ql_entry. cbn.
  destruct (dict_mem (QL.q_table s) key) eqn:E; [reflexivity|].
  cbn. rewrite dict_get_set.
  destruct (String.eqb key k); [now rewrite dict_get_comp | reflexivity].
Qed.

(** An entry that is there stays as it is. *)
Lemma with_state_keeps key s k a q :
  ql_entry s k a = Some q -> ql_entry (with_state key s) k a = Some q.
Proof.
  intros Hq. rewrite with_state_entry.
  destruct (dict_mem (QL.q_table s) key) eqn:E; [exact Hq|].
  destruct (String.eqb_spec key k) as [<-|]; [|exact Hq].
  apply dict_mem_false in E. unfold ql_entry in Hq. now rewrite E in Hq.
Qed.

Lemma with_states_fields key nxt s :
  QL.alpha (with_states key nxt s) = QL.alpha s /\
  QL.gamma (with_states key nxt s) = QL.gamma s /\
  QL.epsilon (with_states key nxt s) = QL.epsilon s /\
  QL.actions (with_states key nxt s) = QL.actions s /\
  QL.total_updates (with_states key nxt s) = QL.total_updates s /\
  QL.episode_rewards (with_states key nxt s) = QL.episode_rewards s.
Proof.
  unfold with_states. destruct nxt as [n|]; [|apply with_state_fields].
  destruct (with_state_fields (state_key_of n) (with_state key s))
    as (-> & -> & -> & -> & -> & ->).
  apply with_state_fields.
Qed.

Lemma with_states_keeps key nxt s k a q :
  ql_entry s k a = Some q -> ql_entry (with_states key nxt s) k a = Some q.
Proof.
  intros Hq. unfold with_states.
  destruct nxt; auto using with_state_keeps.
Qed.

Lemma with_states_mem_key key nxt s :
  dict_mem (QL.q_table (with_states key nxt s)) key = true.
Proof.
  unfold with_states. destruct nxt as [n|];
    rewrite ?with_state_mem, ?with_state_mem, String.eqb_refl;
    auto using orb_true_r.
Qed.

(** [update], outcome by outcome. *)
Lemma ql_update_run st action r nxt s :
  let key := state_key_of st in
  match ql_entry (with_state key s) key action with
  | None => QL.update st action r nxt s = Raise KeyError (with_state key s)
  | Some q =>
      match ql_max_next key nxt s with
      | None =>
          QL.update st action r nxt s =
          Raise ValueError (with_states key nxt s)
      | Some m =>
          exists s',
            QL.update st action r nxt s = Ok tt s' /\
            QL.alpha s' = QL.alpha s /\ QL.gamma s' = QL.gamma s /\
            QL.epsilon s' = QL.epsilon s /\ QL.actions s' = QL.actions s /\
            QL.episode_rewards s' = QL.episode_rewards s /\
            QL.total_updates s' = QL.total_updates s + 1 /\
            (forall k, dict_mem (QL.q_table s') k =
                       dict_mem (QL.q_table (with_states key nxt s)) k) /\
            (forall k a,
               ql_entry s' k a =
               if String.eqb key k && String.eqb action a
               then Some (td_update s q r m)
               else ql_entry (with_states key nxt s) k a)
      end
  end.
Proof.
  destruct st as [[d c] h]. cbv zeta. cbn [state_key_of].
  set (key := QL._get_state_key d c h).
  set (s1 := with_state key s).
  assert (Hmem1 : dict_mem (QL.q_table s1) key = true).
  { unfold s1. rewrite with_state_mem, String.eqb_refl. reflexivity. }
  apply dict_mem_true in Hmem1. destruct Hmem1 as [row Hrow].
  set (tail := fun (q m : F) =>
    bind (gets QL.alpha) (fun alpha_ =>
      bind (gets QL.gamma) (fun gamma_ =>
        bind (gets QL.q_table) (fun qt2 =>
          bind (getitem qt2 key) (fun row2 =>
            bind (modify (fun s : QL.agent F => QL.set_q_table s
                    (dict_set qt2 key (dict_set row2 action
                       (fadd q (fmul alpha_
                                  (fsub (fadd r (fmul gamma_ m)) q)))))))
                 (fun _ => modify (fun s : QL.agent F =>
                    QL.set_total_updates s (QL.total_updates s + 1)))))))).
  set (next := match nxt with
               | Some (d', c', h') =>
                   bind (QL.init_state (QL._get_state_key d' c' h'))
                     (fun _ => bind (gets QL.q_table) (fun qt' =>
                        bind (getitem qt' (QL._get_state_key d' c' h'))
                          (fun next_row =>
                             max_or_raise
                               (py_max fgt (dict_values next_row)))))
               | None => ret f0
               end : M (QL.agent F) F).
  assert (Hstart :
    QL.update (d, c, h) action r nxt s =
    match dict_get row action with
    | Some q => bind next (tail q) s1
    | None => Raise KeyError s1
    end).
  { unfold QL.update. fold key.
    unfold bind at 1. rewrite ql_init_state_eq. fold s1.
    unfold bind at 1. cbn [gets]. unfold bind at 1. unfold getitem at 1.
    rewrite Hrow. cbn [ret]. unfold bind at 1. unfold getitem at 1.
    destruct (dict_get row action); reflexivity. }
  rewrite Hstart. clear Hstart.
  unfold ql_entry at 1. fold s1. rewrite Hrow.
  destruct (dict_get row action) as [q|] eqn:Hq; [|reflexivity].
  assert (Htail : forall (m : F) (s2 : QL.agent F) row2,
    dict_get (QL.q_table s2) key = Some row2 ->
    QL.alpha s2 = QL.alpha s -> QL.gamma s2 = QL.gamma s ->
    QL.epsilon s2 = QL.epsilon s -> QL.actions s2 = QL.actions s ->
    QL.episode_rewards s2 = QL.episode_rewards s ->
    QL.total_updates s2 = QL.total_updates s ->
    exists s',
      tail q m s2 = Ok tt s' /\
      QL.alpha s' = QL.alpha s /\ QL.gamma s' = QL.gamma s /\
      QL.epsilon s' = QL.epsilon s /\ QL.actions s' = QL.actions s /\
      QL.episode_rewards s' = QL.episode_rewards s /\
      QL.total_updates s' = QL.total_updates s + 1 /\
      (forall k, dict_mem (QL.q_table s') k = dict_mem (QL.q_table s2) k) /\
      (forall k a,
         ql_entry s' k a =
         if String.eqb key k && String.eqb action a
         then Some (td_update s q r m)
         else ql_entry s2 k a)).
  { intros m s2 row2 Hrow2 Ha Hg He Hact Hep Htot.
    unfold tail, bind, gets, getitem, modify. rewrite Hrow2. cbn [ret].
    eexists. split; [reflexivity|]. cbn.
    repeat split; try assumption; try congruence.
    - intros k. unfold dict_mem. rewrite dict_get_set.
      destruct (String.eqb_spec key k) as [<-|]; [now rewrite Hrow2|reflexivity].
    - intros k a. unfold ql_entry. cbn. rewrite dict_get_set.
      destruct (String.eqb_spec key k) as [<-|]; cbn.
      + rewrite dict_get_set, Hrow2. unfold td_update. rewrite Ha, Hg.
        reflexivity.
      + reflexivity. }
  destruct (with_state_fields key s) as (Ha & Hg & He & Hact & Htot & Hep).
  fold s1 in Ha, Hg, He, Hact, Htot, Hep.
  destruct nxt as [[[d' c'] h']|].
  - cbn [ql_max_next with_states state_key_of]. fold key. fold s1.
    set (nkey := QL._get_state_key d' c' h') in *.
    set (s2 := with_state nkey s1).
    assert (Hmem2 : dict_mem (QL.q_table s2) nkey = true).
    { unfold s2. rewrite with_state_mem, String.eqb_refl. reflexivity. }
    apply dict_mem_true in Hmem2. destruct Hmem2 as [nrow Hnrow].
    rewrite Hnrow.
    assert (Hnext : next s1 =
              match py_max fgt (dict_values nrow) with
              | Some m => Ok m s2
              | None => Raise ValueError s2
              end).
    { unfold next. unfold bind at 1. rewrite ql_init_state_eq. fold s2.
      unfold bind at 1. cbn [gets]. unfold bind at 1. unfold getitem at 1.
      rewrite Hnrow. cbn [ret]. unfold max_or_raise.
      destruct (py_max fgt (dict_values nrow)); reflexivity. }
    destruct (py_max fgt (dict_values nrow)) as [m|];
      [|unfold bind at 1; now rewrite Hnext].
    unfold bind at 1. rewrite Hnext.
    assert (Hmem3 : dict_mem (QL.q_table s2) key = true).
    { unfold s2. rewrite with_state_mem. apply orb_true_iff. right.
      apply dict_mem_true. eauto. }
    apply dict_mem_true in Hmem3. destruct Hmem3 as [row2 Hrow2].
    destruct (with_state_fields nkey s1)
      as (Ha2 & Hg2 & He2 & Hact2 & Htot2 & Hep2).
    fold s2 in Ha2, Hg2, He2, Hact2, Htot2, Hep2.
    apply (Htail m s2 row2 Hrow2); congruence.
  - cbn [ql_max_next with_states]. fold key. fold s1.
    unfold bind at 1. unfold next. cbn [ret].
    apply (Htail f0 s1 row Hrow); assumption.
Qed.

End SchedulerRuns.

(* ------------------------------------------------------------------ *)
(** ** The scheduler: known and unknown actions *)

Section SchedulerUpdates.
Context {F : Type} `{PyFloat F}.
Implicit Types s : QL.agent F.

Lemma known_action_iff action :
  known_action action = true <-> In action QL.default_actions.
Proof.
  unfold known_action. rewrite existsb_exists. split.
  - intros (x & Hx & E). apply String.eqb_eq in E. now subst.
  - intros Hin. exists action. split; [exact Hin | apply String.eqb_refl].
Qed.

(** A method that initialises the row and then only reads leaves
    [with_state]. *)
Lemma state_of_init_then_reads {A} key (k : unit -> M (QL.agent F) A) s :
  (forall u, reads (k u)) ->
  state_of (bind (QL.init_state key) k s) = with_state key s.
Proof.
  intros Hk. unfold bind. rewrite ql_init_state_eq. apply Hk.
Qed.

Lemma ql_get_best_action_state d c h s :
  state_of (QL.get_best_action d c h s) =
  with_state (QL._get_state_key d c h) s.
Proof.
  unfold QL.get_best_action. apply state_of_init_then_reads. intros _.
  repeat (apply reads_bind; [auto with reads|]; intros ?). apply reads_ret.
Qed.

Lemma ql_get_action_state d c h explore u pick s :
  state_of (QL.get_action d c h explore u pick s) =
  with_state (QL._get_state_key d c h) s.
Proof.
  unfold QL.get_action. apply state_of_init_then_reads. intros _.
  apply reads_bind; [auto with reads|]. intros eps.
  destruct (explore && flt u eps);
    repeat (apply reads_bind; [auto with reads|]; intros ?);
    apply reads_random_choice.
Qed.

Lemma with_state_within key s : ql_within s -> ql_within (with_state key s).
Proof.
  intros [Hact Hin].
  destruct (with_state_fields key s) as (_ & _ & _ & Hact1 & _).
  split; [congruence|]. intros k a q. rewrite with_state_entry.
  destruct (dict_mem (QL.q_table s) key); [apply Hin|].
  destruct (String.eqb key k); [|apply Hin].
  destruct (in_dec string_dec a (QL.actions s)); [|discriminate].
  intros _. congruence.
Qed.

Lemma with_states_within key nxt s :
  ql_within s -> ql_within (with_states key nxt s).
Proof.
  intros Hw. unfold with_states.
  destruct nxt; auto using with_state_within.
Qed.

Lemma ql_update_within st action r nxt s :
  ql_within s -> ql_within (state_of (QL.update st action r nxt s)).
Proof.
  intros Hw. pose proof (ql_update_run st action r nxt s) as Hrun.
  cbv zeta in Hrun. set (key := state_key_of st) in *.
  pose proof (with_state_within key Hw) as Hw1.
  pose proof (with_states_within key nxt Hw) as Hw2.
  destruct (ql_entry (with_state key s) key action) as [q|] eqn:Hq;
    [|now rewrite Hrun].
  destruct (ql_max_next key nxt s) as [m|]; [|now rewrite Hrun].
  destruct Hrun as (s' & -> & _ & _ & _ & Hact & _ & _ & _ & He). cbn.
  split; [rewrite Hact; apply Hw|]. intros k a q'. rewrite He.
  destruct (String.eqb_spec key k) as [<-|]; cbn; [|apply Hw2].
  destruct (String.eqb_spec action a) as [<-|]; [|apply Hw2].
  intros _. eapply Hw1. exact Hq.
Qed.

Lemma ql_reachable_within s : ql_reachable s -> ql_within s.
Proof.
  induction 1.
  - split; [reflexivity | intros k a0 q [=]].
  - rewrite ql_get_action_state. now apply with_state_within.
  - now apply ql_update_within.
  - rewrite ql_get_best_action_state. now apply with_state_within.
  - destruct IHql_reachable as [Hact Hin]. split; [exact Hact | exact Hin].
Qed.

(** On a reachable scheduler the row that is there has a value for
    each of the six actions and an unknown action has none. *)
Lemma ql_entry_known key action s :
  ql_reachable s ->
  (In action QL.default_actions ->
   exists q, ql_entry (with_state key s) key action = Some q) /\
  (~ In action QL.default_actions ->
   ql_entry (with_state key s) key action = None).
Proof.
  intros Hreach. split.
  - intros Hin.
    pose proof (ql_init_state_ok key (ql_reachable_ok Hreach)) as [Hne Hrows].
    destruct (ql_init_state_row key s) as [row Hrow].
    fold (with_state key s) in Hrow, Hrows.
    destruct (Hrows _ _ Hrow) as [Hfull _].
    unfold ql_entry. rewrite Hrow. apply Hfull.
    destruct (with_state_fields key s) as (_ & _ & _ & -> & _).
    now rewrite (proj1 (ql_reachable_within Hreach)).
  - intros Hnin.
    destruct (ql_entry (with_state key s) key action) as [q|] eqn:E;
      [|reflexivity].
    exfalso. apply Hnin.
    eapply (with_state_within key (ql_reachable_within Hreach)). exact E.
Qed.

Lemma ql_max_next_some key nxt s :
  ql_reachable s -> exists m, ql_max_next key nxt s = Some m.
Proof.
  intros Hreach. destruct nxt as [n|]; [|now exists f0].
  cbn [ql_max_next with_states].
  pose proof (ql_init_state_ok key (ql_reachable_ok Hreach)) as Hok1.
  fold (with_state key s) in Hok1.
  pose proof (ql_init_state_ok (state_key_of n) Hok1) as [Hne Hrows].
  destruct (ql_init_state_row (state_key_of n) (with_state key s))
    as [row Hrow].
  fold (with_state (state_key_of n) (with_state key s)) in Hrow, Hrows, Hne.
  rewrite Hrow. destruct (Hrows _ _ Hrow) as [Hfull _].
  pose proof (full_row_not_nil Hne Hfull) as Hnil.
  destruct row as [|kv row]; [congruence|]. cbn. eauto.
Qed.

(** X3. On a reachable scheduler [update] with one of the six actions
    returns.  It stores [q + alpha * (reward + gamma * max_next_q - q)]
    under that state and action, where [q] is the value that was
    there (0.0 in a row just created) and [max_next_q] is 0.0 for a
    terminal step and the [max] of the next state's row otherwise; it
    counts one update, keeps the hyperparameters, and leaves every
    other entry as the lazy initialisation of the two rows left it. *)
Theorem ql_update_effect (s : QL.agent F) (st : Z * string * bool)
    (action : string) (r : F) (nxt : option (Z * string * bool)) :
  ql_reachable s -> In action QL.default_actions ->
  exists q m s',
    ql_entry (with_state (state_key_of st) s) (state_key_of st) action
      = Some q /\
    ql_max_next (state_key_of st) nxt s = Some m /\
    QL.update st action r nxt s = Ok tt s' /\
    QL.alpha s' = QL.alpha s /\ QL.gamma s' = QL.gamma s /\
    QL.epsilon s' = QL.epsilon s /\ QL.actions s' = QL.actions s /\
    QL.total_updates s' = QL.total_updates s + 1 /\
    (forall k a,
       ql_entry s' k a =
       if String.eqb (state_key_of st) k && String.eqb action a
       then Some (td_update s q r m)
       else ql_entry (with_states (state_key_of st) nxt s) k a) /\
    (forall k a q0, ql_entry s k a = Some q0 ->
       ql_entry (with_states (state_key_of st) nxt s) k a = Some q0).
Proof.
  intros Hreach Hin.
  pose proof (ql_update_run st action r nxt s) as Hrun. cbv zeta in Hrun.
  destruct (proj1 (ql_entry_known (state_key_of st) action Hreach) Hin)
    as [q Hq].
  destruct (ql_max_next_some (state_key_of st) nxt Hreach) as [m Hm].
  rewrite Hq, Hm in Hrun.
  destruct Hrun as (s' & Hrun & Ha & Hg & He & Hact & _ & Htot & _ & Hent).
  exists q, m, s'. repeat split; auto using with_states_keeps.
Qed.

(** X4. On a reachable scheduler [update] with an action that is not
    one of the six raises [KeyError].  No update is counted and no
    value changes, but the row of the state has been created. *)
Theorem ql_update_unknown_action (s : QL.agent F) (st : Z * string * bool)
    (action : string) (r : F) (nxt : option (Z * string * bool)) :
  ql_reachable s -> ~ In action QL.default_actions ->
  QL.update st action r nxt s =
    Raise KeyError (with_state (state_key_of st) s) /\
  QL.total_updates (with_state (state_key_of st) s) = QL.total_updates s /\
  dict_mem (QL.q_table (with_state (state_key_of st) s)) (state_key_of st)
    = true /\
  (forall k a q, ql_entry s k a = Some q ->
     ql_entry (with_state (state_key_of st) s) k a = Some q) /\
  (forall a, In a QL.default_actions ->
     dict_mem (QL.q_table s) (state_key_of st) = false ->
     ql_entry (with_state (state_key_of st) s) (state_key_of st) a
       = Some f0).
Proof.
  intros Hreach Hnin.
  pose proof (ql_update_run st action r nxt s) as Hrun. cbv zeta in Hrun.
  rewrite (proj2 (ql_entry_known (state_key_of st) action Hreach) Hnin)
    in Hrun.
  split; [exact Hrun|]. split; [apply with_state_fields|].
  split; [rewrite with_state_mem, String.eqb_refl; reflexivity|].
  split; [intros; now apply with_state_keeps|].
  intros a Ha Hmem. rewrite with_state_entry, Hmem, String.eqb_refl.
  rewrite (proj1 (ql_reachable_within Hreach)).
  destruct (in_dec string_dec a QL.default_actions); [reflexivity|contradiction].
Qed.

Lemma ql_run_counts calls : forall s,
  ql_reachable s ->
  QL.total_updates (ql_run calls s) =
  QL.total_updates s +
  Z.of_nat (List.length
              (filter (fun c => known_action (call_action c)) calls)).
Proof.
  unfold ql_run.
  induction calls as [|c calls IH]; intros s Hreach; cbn [fold_left filter].
  - cbn. lia.
  - rewrite IH by (now apply ql_after_update).
    pose proof (ql_update_run (call_state c) (call_action c) (call_reward c)
                  (call_next_state c) s) as Hrun.
    cbv zeta in Hrun.
    destruct (known_action (call_action c)) eqn:E.
    + apply known_action_iff in E.
      destruct (proj1 (ql_entry_known (state_key_of (call_state c))
                         (call_action c) Hreach) E) as [q Hq].
      destruct (ql_max_next_some (state_key_of (call_state c))
                  (call_next_state c) Hreach) as [m Hm].
      rewrite Hq, Hm in Hrun.
      destruct Hrun as (s' & -> & _ & _ & _ & _ & _ & Htot & _).
      cbn [state_of List.length]. lia.
    + assert (Hn : ~ In (call_action c) QL.default_actions).
      { intros Hin. apply known_action_iff in Hin. congruence. }
      rewrite (proj2 (ql_entry_known (state_key_of (call_state c))
                        (call_action c) Hreach) Hn) in Hrun.
      rewrite Hrun. cbn [state_of].
      destruct (with_state_fields (state_key_of (call_state c)) s)
        as (_ & _ & _ & _ & Htot & _).
      lia.
Qed.

(** X5. After any sequence of [update] calls on a fresh scheduler,
    [total_updates] is the number of calls whose action is one of the
    six: the calls that raised are not counted. *)
Theorem ql_total_updates_counts_accepted (a g e : F) (calls : list ql_call) :
  QL.total_updates (ql_run calls (QL.__init__ a g e None)) =
  Z.of_nat (List.length
              (filter (fun c => known_action (call_action c)) calls)).
Proof.
  rewrite ql_run_counts by apply ql_fresh. reflexivity.
Qed.

End SchedulerUpdates.

(* ------------------------------------------------------------------ *)
(** ** The scheduler: [get_action] and the unseen state *)

Lemma random_choice_in {S A} i (l : list A) (s : S) a s' :
  random_choice i l s = Ok a s' -> In a l /\ s' = s.
Proof.
  unfold random_choice, ret, raise.
  destruct (nth_error l (i mod List.length l)) as [x|] eqn:E; [|discriminate].
  intros [= <- <-]. split; [eapply nth_error_In; exact E | reflexivity].
Qed.

Lemma random_choice_returns {S A} i (l : list A) (s : S) :
  l <> [] -> exists a, random_choice i l s = Ok a s /\ In a l.
Proof.
  intros Hne. unfold random_choice, ret, raise.
  destruct (nth_error l (i mod List.length l)) as [x|] eqn:E.
  - exists x. split; [reflexivity | eapply nth_error_In; exact E].
  - exfalso. apply nth_error_None in E.
    assert (i mod List.length l < List.length l)%nat.
    { apply Nat.mod_upper_bound. destruct l; [congruence | discriminate]. }
    lia.
Qed.

Lemma random_choice_nil {S A} i (s : S) :
  random_choice i (@nil A) s = Raise IndexError s.
Proof. unfold random_choice. now destruct (i mod _)%nat. Qed.

Section SchedulerChoice.
Context {F : Type} `{PyFloat F}.
Implicit Types s : QL.agent F.

(** [get_action], branch by branch. *)
Lemma ql_get_action_eq d c h explore u pick s :
  let key := QL._get_state_key d c h in
  let s1 := with_state key s in
  QL.get_action d c h explore u pick s =
  if explore && flt u (QL.epsilon s1)
  then random_choice pick (QL.actions s1) s1
  else match dict_get (QL.q_table s1) key with
       | Some row =>
           match py_max fgt (dict_values row) with
           | Some max_q =>
               random_choice pick
                 (map fst (filter (fun aq => feq (snd aq) max_q) row)) s1
           | None => Raise ValueError s1
           end
       | None => Raise KeyError s1
       end.
Proof.
  intros key s1. unfold QL.get_action. fold key.
  unfold bind at 1. rewrite ql_init_state_eq. fold s1.
  unfold bind at 1. cbn [gets].
  destruct (explore && flt u (QL.epsilon s1)); [reflexivity|].
  unfold bind, gets, getitem, max_or_raise.
  destruct (dict_get (QL.q_table s1) key) as [row|]; [|reflexivity].
  cbn [ret]. destruct (py_max fgt (dict_values row)); reflexivity.
Qed.

Lemma filter_keys_in (row : dict F) (p : string * F -> bool) a :
  NoDup (dict_keys row) ->
  In a (map fst (filter p row)) ->
  exists q, dict_get row a = Some q /\ p (a, q) = true.
Proof.
  induction row as [|[k v] row IH]; cbn [filter map dict_keys];
    intros Hnd Hin; [contradiction|].
  inversion Hnd as [|? ? Hnin Hnd']; subst.
  cbn [dict_get].
  destruct (String.eqb_spec k a) as [->|Hne].
  - destruct (p (a, v)) eqn:Ep; [eauto|].
    exfalso. apply Hnin.
    destruct (IH Hnd' Hin) as (q & Hq & _).
    apply dict_keys_get. eauto.
  - apply IH; [exact Hnd'|].
    destruct (p (k, v)); [|exact Hin].
    destruct Hin as [E|Hin]; [cbn in E; congruence | exact Hin].
Qed.

(** X6. Whatever the draws, an action that [get_action] returns on a
    reachable scheduler is one of the six, and the scheduler it leaves
    differs from the one it found by the lazily created row at most.
    When it does not explore, the value stored for the action it
    returns compares equal to the [max] of the row. *)
Theorem ql_get_action_sound (s : QL.agent F) (d : Z) (c : string) (h : bool)
    (explore : bool) (u : F) (pick : nat) (a : string) (s' : QL.agent F) :
  ql_reachable s ->
  QL.get_action d c h explore u pick s = Ok a s' ->
  In a QL.default_actions /\
  s' = with_state (QL._get_state_key d c h) s /\
  (explore && flt u (QL.epsilon s) = false ->
   exists q m row,
     dict_get (QL.q_table s') (QL._get_state_key d c h) = Some row /\
     dict_get row a = Some q /\
     py_max fgt (dict_values row) = Some m /\
     feq q m = true).
Proof.
  intros Hreach. rewrite ql_get_action_eq. cbv zeta.
  set (key := QL._get_state_key d c h). set (s1 := with_state key s).
  destruct (with_state_fields key s) as (_ & _ & Heps & Hact & _).
  fold s1 in Heps, Hact. rewrite Heps.
  pose proof (ql_reachable_within Hreach) as [Hdef _].
  pose proof (ql_init_state_ok key (ql_reachable_ok Hreach)) as [_ Hrows].
  fold (with_state key s) in Hrows. fold s1 in Hrows.
  destruct (explore && flt u (QL.epsilon s)).
  - intros E. apply random_choice_in in E. destruct E as [Hin ->].
    split; [congruence|]. split; [reflexivity | discriminate].
  - destruct (dict_get (QL.q_table s1) key) as [row|] eqn:Hrow;
      [|discriminate].
    destruct (py_max fgt (dict_values row)) as [m|] eqn:Hm; [|discriminate].
    intros E. apply random_choice_in in E. destruct E as [Hin ->].
    destruct (Hrows _ _ Hrow) as [_ Hnd].
    destruct (@filter_keys_in row _ a Hnd Hin) as (q & Hq & Hp). cbn in Hp.
    split.
    + eapply (with_state_within key (ql_reachable_within Hreach)).
      unfold ql_entry. fold s1. rewrite Hrow. exact Hq.
    + split; [reflexivity|]. intros _. exists q, m, row. auto.
Qed.

(** X7. On a reachable scheduler [get_action] returns whenever it
    explores, and whenever the [max] of the state's row compares equal
    to itself.  When that [max] compares equal to no value at all, as a
    NaN does, the list of best actions is empty and the greedy choice
    raises [IndexError]. *)
Theorem ql_get_action_returns_unless_nan (s : QL.agent F) (d : Z)
    (c : string) (h : bool) (explore : bool) (u : F) (pick : nat) :
  ql_reachable s ->
  exists row m,
    dict_get (QL.q_table (with_state (QL._get_state_key d c h) s))
             (QL._get_state_key d c h) = Some row /\
    py_max fgt (dict_values row) = Some m /\
    (explore && flt u (QL.epsilon s) = true \/ feq m m = true ->
     returns (QL.get_action d c h explore u pick s) = true) /\
    (explore && flt u (QL.epsilon s) = false ->
     (forall q, feq q m = false) ->
     QL.get_action d c h explore u pick s =
     Raise IndexError (with_state (QL._get_state_key d c h) s)).
Proof.
  intros Hreach. rewrite ql_get_action_eq. cbv zeta.
  set (key := QL._get_state_key d c h). set (s1 := with_state key s).
  destruct (with_state_fields key s) as (_ & _ & Heps & Hact & _).
  fold s1 in Heps, Hact. rewrite Heps.
  pose proof (ql_reachable_within Hreach) as [Hdef _].
  pose proof (ql_init_state_ok key (ql_reachable_ok Hreach)) as [Hne Hrows].
  fold (with_state key s) in Hrows, Hne. fold s1 in Hrows, Hne.
  destruct (ql_init_state_row key s) as [row Hrow].
  fold (with_state key s) in Hrow. fold s1 in Hrow.
  destruct (Hrows _ _ Hrow) as [Hfull Hnd].
  pose proof (full_row_not_nil Hne Hfull) as Hnil.
  assert (Hmax : exists m, py_max fgt (dict_values row) = Some m /\
                           In m (dict_values row)).
  { destruct row as [|[k v] row]; [congruence|]. cbn.
    eexists. split; [reflexivity|]. apply max_loop_in. }
  destruct Hmax as (m & Hm & Hin).
  exists row, m. split; [exact Hrow|]. split; [exact Hm|].
  rewrite Hrow, Hm. split.
  - intros Hcase. destruct (explore && flt u (QL.epsilon s)).
    + destruct (random_choice_returns pick s1 (l := QL.actions s1))
        as (a & -> & _); [congruence | reflexivity].
    + destruct Hcase as [|Hmm]; [discriminate|].
      destruct (random_choice_returns pick s1
                  (l := map fst (filter (fun aq => feq (snd aq) m) row)))
        as (a & -> & _); [|reflexivity].
      unfold dict_values in Hin. apply in_map_iff in Hin.
      destruct Hin as ([k v] & Ev & Hkv). cbn in Ev. subst v.
      intros Hempty.
      assert (Hf : In (k, m) (filter (fun aq => feq (snd aq) m) row)).
      { apply filter_In. split; [exact Hkv | exact Hmm]. }
      apply (in_map fst) in Hf. rewrite Hempty in Hf. contradiction.
  - intros -> Hnan.
    replace (filter (fun aq => feq (snd aq) m) row) with (@nil (string * F)).
    + apply random_choice_nil.
    + symmetry. clear -Hnan. induction row as [|[k v] row IH]; cbn;
        [reflexivity|]. now rewrite Hnan.
Qed.

End SchedulerChoice.

Section SchedulerUnseen.
Context {F : Type} `{FloatOrder F}.

(** X8. For a state a reachable scheduler has no row for,
    [get_best_action] creates the row of six zeros and, the first of
    equal values winning, returns [("wait_1d", 0.0)]. *)
Theorem ql_unseen_state_recommends_wait_1d (s : QL.agent F) (d : Z)
    (c : string) (h : bool) :
  ql_reachable s ->
  dict_get (QL.q_table s) (QL._get_state_key d c h) = None ->
  QL.get_best_action d c h s =
    Ok ("wait_1d", f0) (with_state (QL._get_state_key d c h) s) /\
  dict_get (QL.q_table (with_state (QL._get_state_key d c h) s))
           (QL._get_state_key d c h) =
    Some [("wait_1d", f0); ("wait_3d", f0); ("wait_5d", f0);
          ("wait_7d", f0); ("wait_10d", f0); ("wait_14d", f0)] /\
  forall k a q, ql_entry s k a = Some q ->
    ql_entry (with_state (QL._get_state_key d c h) s) k a = Some q.
Proof.
  intros Hreach Hnew. set (key := QL._get_state_key d c h) in *.
  pose proof (ql_reachable_within Hreach) as [Hdef _].
  assert (Hrow : dict_get (QL.q_table (with_state key s)) key =
                 Some [("wait_1d", f0); ("wait_3d", f0); ("wait_5d", f0);
                       ("wait_7d", f0); ("wait_10d", f0); ("wait_14d", f0)]).
  { unfold with_state. cbn. unfold dict_mem. rewrite Hnew. cbn.
    rewrite dict_get_set_same, Hdef. reflexivity. }
  split; [|split; [exact Hrow | intros; now apply with_state_keeps]].
  unfold QL.get_best_action. fold key.
  unfold bind at 1. rewrite ql_init_state_eq.
  unfold bind at 1. cbn [gets]. unfold bind at 1. unfold getitem at 1.
  rewrite Hrow. cbn [ret].
  unfold py_max_key, py_max. cbn [dict_keys map fst max_loop dict_get].
  cbn. unfold fgt. rewrite !flt_irrefl. reflexivity.
Qed.

End SchedulerUnseen.

Lemma ql_unseen_state_recommends_wait_1d_fresh :
  QL.get_best_action 0 "midsize" false
      (QL.__init__ 0.5%float py_0_9 0.125%float None) =
    Ok ("wait_1d", 0%float)
       (with_state (QL._get_state_key 0 "midsize" false)
                   (QL.__init__ 0.5%float py_0_9 0.125%float None)) /\
  dict_get (QL.q_table
              (with_state (QL._get_state_key 0 "midsize" false)
                          (QL.__init__ 0.5%float py_0_9 0.125%float None)))
           (QL._get_state_key 0 "midsize" false) =
    Some [("wait_1d", 0%float); ("wait_3d", 0%float); ("wait_5d", 0%float);
          ("wait_7d", 0%float); ("wait_10d", 0%float);
          ("wait_14d", 0%float)] /\
  forall k a q,
    ql_entry (QL.__init__ 0.5%float py_0_9 0.125%float None) k a = Some q ->
    ql_entry (with_state (QL._get_state_key 0 "midsize" false)
                (QL.__init__ 0.5%float py_0_9 0.125%float None)) k a
      = Some q.
Proof.
  exact (@ql_unseen_state_recommends_wait_1d binary64 _ _
           (QL.__init__ 0.5%float py_0_9 0.125%float None)
           0 "midsize" false (ql_fresh _ _ _) eq_refl).
Defined.

(* ------------------------------------------------------------------ *)
(** ** The scheduler on binary64 *)

Lemma ql_after_one_reachable : ql_reachable ql_after_one.
Proof. apply ql_after_update, ql_fresh. Qed.

Lemma ql_after_nan_reachable : ql_reachable ql_after_nan.
Proof. apply ql_after_update, ql_fresh. Qed.

Lemma binary64_nan_equals_nothing (q : float) :
  (q =? PrimFloat.nan)%float = false.
Proof.
  rewrite eqb_spec. replace (Prim2SF PrimFloat.nan) with S754_nan
    by (vm_compute; reflexivity).
  unfold SFeqb. now destruct (Prim2SF q).
Qed.

(** After a NaN reward for the first action the greedy [get_action]
    raises [IndexError] on that state, whatever index is drawn, while
    [get_best_action] still answers. *)
Lemma ql_get_action_after_nan (u : float) (pick : nat) :
  QL.get_action 4 "startup" true false u pick ql_after_nan =
    Raise IndexError ql_after_nan /\
  returns (QL.get_best_action 4 "startup" true ql_after_nan) = true.
Proof.
  split; [|vm_compute; reflexivity].
  rewrite ql_get_action_eq. cbv zeta.
  replace (with_state (QL._get_state_key 4 "startup" true) ql_after_nan)
    with ql_after_nan by (vm_compute; reflexivity).
  cbn [andb].
  replace (dict_get (QL.q_table ql_after_nan)
             (QL._get_state_key 4 "startup" true))
    with (Some [("wait_1d", PrimFloat.nan); ("wait_3d", 0%float);
                ("wait_5d", 0%float); ("wait_7d", 0%float);
                ("wait_10d", 0%float); ("wait_14d", 0%float)])
    by (vm_compute; reflexivity).
  replace (py_max (@fgt binary64 PyFloat_binary64) (dict_values
             [("wait_1d", PrimFloat.nan); ("wait_3d", 0%float);
              ("wait_5d", 0%float); ("wait_7d", 0%float);
              ("wait_10d", 0%float); ("wait_14d", 0%float)]))
    with (Some PrimFloat.nan) by (vm_compute; reflexivity).
  cbn [filter snd feq PyFloat_binary64].
  rewrite ?binary64_nan_equals_nothing. apply random_choice_nil.
Qed.

Lemma ql_update_effect_after_one :
  exists q m s',
    ql_entry (with_state (state_key_of (4, "startup", true)) ql_after_one)
             (state_key_of (4, "startup", true)) "wait_5d" = Some q /\
    ql_max_next (state_key_of (4, "startup", true))
                (Some (7, "startup", true)) ql_after_one = Some m /\
    QL.update (4, "startup", true) "wait_5d" 20%float
              (Some (7, "startup", true)) ql_after_one = Ok tt s' /\
    QL.alpha s' = QL.alpha ql_after_one /\
    QL.gamma s' = QL.gamma ql_after_one /\
    QL.epsilon s' = QL.epsilon ql_after_one /\
    QL.actions s' = QL.actions ql_after_one /\
    QL.total_updates s' = QL.total_updates ql_after_one + 1 /\
    (forall k a,
       ql_entry s' k a =
       if String.eqb (state_key_of (4, "startup", true)) k
          && String.eqb "wait_5d" a
       then Some (td_update ql_after_one q 20%float m)
       else ql_entry (with_states (state_key_of (4, "startup", true))
                                  (Some (7, "startup", true)) ql_after_one)
                     k a) /\
    (forall k a q0, ql_entry ql_after_one k a = Some q0 ->
       ql_entry (with_states (state_key_of (4, "startup", true))
                             (Some (7, "startup", true)) ql_after_one) k a
         = Some q0).
Proof.
  apply (@ql_update_effect binary64 _ ql_after_one (4, "startup", true)
           "wait_5d" 20%float (Some (7, "startup", true))
           ql_after_one_reachable).
  simpl. tauto.
Defined.

Lemma ql_update_unknown_action_after_one :
  QL.update (4, "startup", true) "wait_2d" 20%float None ql_after_one =
    Raise KeyError
      (with_state (state_key_of (4, "startup", true)) ql_after_one) /\
  QL.total_updates
    (with_state (state_key_of (4, "startup", true)) ql_after_one)
    = QL.total_updates ql_after_one /\
  dict_mem (QL.q_table
              (with_state (state_key_of (4, "startup", true)) ql_after_one))
           (state_key_of (4, "startup", true)) = true /\
  (forall k a q, ql_entry ql_after_one k a = Some q ->
     ql_entry (with_state (state_key_of (4, "startup", true)) ql_after_one)
              k a = Some q) /\
  (forall a, In a QL.default_actions ->
     dict_mem (QL.q_table ql_after_one) (state_key_of (4, "startup", true))
       = false ->
     ql_entry (with_state (state_key_of (4, "startup", true)) ql_after_one)
              (state_key_of (4, "startup", true)) a = Some 0%float).
Proof.
  apply (@ql_update_unknown_action binary64 _ ql_after_one
           (4, "startup", true) "wait_2d" 20%float None
           ql_after_one_reachable).
  simpl. intros Hin.
  repeat (destruct Hin as [Hin|Hin]; [discriminate|]). exact Hin.
Defined.

Lemma ql_get_action_sound_after_one :
  In "wait_5d" QL.default_actions /\
  ql_after_one = with_state (QL._get_state_key 4 "startup" true) ql_after_one /\
  (false && flt 0%float (QL.epsilon ql_after_one) = false ->
   exists q m row,
     dict_get (QL.q_table ql_after_one) (QL._get_state_key 4 "startup" true)
       = Some row /\
     dict_get row "wait_5d" = Some q /\
     py_max fgt (dict_values row) = Some m /\
     feq q m = true).
Proof.
  apply (@ql_get_action_sound binary64 _ ql_after_one 4 "startup" true
           false 0%float 0%nat "wait_5d" ql_after_one
           ql_after_one_reachable).
  vm_compute. reflexivity.
Defined.

Lemma ql_get_action_returns_unless_nan_after_nan :
  exists row m,
    dict_get (QL.q_table (with_state (QL._get_state_key 4 "startup" true)
                                     ql_after_nan))
             (QL._get_state_key 4 "startup" true) = Some row /\
    py_max fgt (dict_values row) = Some m /\
    (false && flt 0%float (QL.epsilon ql_after_nan) = true \/ feq m m = true ->
     returns (QL.get_action 4 "startup" true false 0%float 0 ql_after_nan)
       = true) /\
    (false && flt 0%float (QL.epsilon ql_after_nan) = false ->
     (forall q, feq q m = false) ->
     QL.get_action 4 "startup" true false 0%float 0 ql_after_nan =
     Raise IndexError (with_state (QL._get_state_key 4 "startup" true)
                                  ql_after_nan)).
Proof.
  exact (@ql_get_action_returns_unless_nan binary64 _ ql_after_nan
           4 "startup" true false 0%float 0%nat ql_after_nan_reachable).
Defined.

(* ------------------------------------------------------------------ *)
(** ** The sum of two Beta parameters *)

(** Two binary64 numbers that are at least [1.0] add up to [+inf] or to
    a positive finite number. *)
Lemma SFadd_ge_one_at_least (m1 m2 : positive) (e1 e2 : Z) :
  Zpos (digits2_pos m1) = 53 -> -52 <= e1 ->
  Zpos (digits2_pos m2) = 53 -> -52 <= e2 ->
  exists e' q,
    at_least e' q (SF64add (S754_finite false m1 e1)
                           (S754_finite false m2 e2)).
Proof.
  intros Hd1 He1 Hd2 He2.
  destruct (digits2_pos_bounds m1) as [Hlow1 _]. rewrite Hd1 in Hlow1.
  destruct (digits2_pos_bounds m2) as [Hlow2 _]. rewrite Hd2 in Hlow2.
  change (2 ^ (53 - 1)) with 4503599627370496 in Hlow1, Hlow2.
  unfold SF64add, SFadd.
  set (ez := Z.min e1 e2).
  destruct (@shl_align_spec m1 e1 ez) as [_ Hm1]; [unfold ez; lia|].
  destruct (@shl_align_spec m2 e2 ez) as [_ Hm2]; [unfold ez; lia|].
  set (a1 := fst (shl_align m1 e1 ez)) in *.
  set (a2 := fst (shl_align m2 e2 ez)) in *.
  cbn [cond_Zopp Z.add binary_normalize].
  set (M := (a1 + a2)%positive).
  assert (Hp1 : 1 <= 2 ^ (e1 - ez)).
  { change 1 with (2 ^ 0). apply Z.pow_le_mono_r; unfold ez; lia. }
  assert (Hp2 : 1 <= 2 ^ (e2 - ez)).
  { change 1 with (2 ^ 0). apply Z.pow_le_mono_r; unfold ez; lia. }
  assert (HM : 2 ^ 53 <= Zpos M).
  { unfold M. rewrite Pos2Z.inj_add, Hm1, Hm2.
    change (2 ^ 53) with 9007199254740992. nia. }
  assert (HdM : 53 < Zpos (digits2_pos M))
    by (apply digits2_pos_lower; [lia | exact HM]).
  assert (Hez : -52 <= ez) by (unfold ez; lia).
  unfold binary_round. rewrite shl_align_id.
  2: { rewrite fexp64 by lia. lia. }
  do 2 eexists. apply round_aux_at_least; lia.
Qed.

Lemma at_least_not_zero (e q : Z) (r : spec_float) :
  at_least e q r -> SFeqb r (S754_zero false) = false.
Proof. intros [->|(mf & ef & -> & _)]; reflexivity. Qed.

Lemma binary64_sum_nonzero (x y : float) :
  (1 <=? x)%float = true -> (1 <=? y)%float = true ->
  (x + y =? 0)%float = false.
Proof.
  rewrite !leb_spec, eqb_spec, add_spec, Prim2SF_one, Prim2SF_zero.
  intros Hx Hy.
  destruct (@SFleb_one_inv _ (Prim2SF_valid x) Hx)
    as [->|(m1 & e1 & -> & Hd1 & He1)];
    destruct (@SFleb_one_inv _ (Prim2SF_valid y) Hy)
      as [->|(m2 & e2 & -> & Hd2 & He2)]; try reflexivity.
  destruct (@SFadd_ge_one_at_least m1 m2 e1 e2 Hd1 He1 Hd2 He2)
    as (e' & q & Hr).
  eapply at_least_not_zero. exact Hr.
Qed.

#[export] Instance FloatSum_binary64 : FloatSum binary64.
Proof. split. exact binary64_sum_nonzero. Qed.

#[export] Instance FloatSum_Q : FloatSum Q.
Proof.
  split. cbn [fle fadd feq f0 f1 PyFloat_Q]. intros x y Hx Hy.
  apply Qle_bool_iff in Hx, Hy.
  destruct (Qeq_bool (x + y) 0) eqn:E; [|reflexivity].
  apply Qeq_bool_iff in E. lra.
Qed.

(* ------------------------------------------------------------------ *)
(** ** The bandit: arms, samples and the history *)

Lemma py_max_key_in {A B} (gt : B -> B -> bool) (key : A -> B)
    (l : list A) (a : A) :
  py_max_key gt key l = Some a -> In a l.
Proof.
  unfold py_max_key, py_max. destruct l as [|x l]; [discriminate|].
  intros [= <-]. apply max_loop_in.
Qed.

Section BanditWithin.
Context {F : Type} `{PyFloat F}.
Implicit Types s : TS.agent F.

Lemma known_arm_iff arm :
  known_arm arm = true <-> In arm TS.default_arms.
Proof.
  unfold known_arm. rewrite existsb_exists. split.
  - intros (x & Hx & E). apply String.eqb_eq in E. now subst.
  - intros Hin. exists arm. split; [exact Hin | apply String.eqb_refl].
Qed.

(** When the sampling loop returns, it returns [samples_of]. *)
Lemma ts_sample_arms_value key draw s : forall todo i samples samples' s',
  TS.sample_arms key draw i todo samples s = Ok samples' s' ->
  samples' = samples_of draw i todo samples.
Proof.
  induction todo as [|arm todo IH]; intros i samples samples' s';
    cbn [TS.sample_arms samples_of].
  - intros E. apply ret_ok in E. now destruct E.
  - intros E.
    apply bind_ok in E. destruct E as (ds & s1 & E1 & E).
    apply gets_ok in E1. destruct E1 as [-> ->].
    apply bind_ok in E. destruct E as (row & s1 & E1 & E).
    apply getitem_ok in E1. destruct E1 as [Hrow ->].
    apply bind_ok in E. destruct E as (p & s1 & E1 & E).
    apply getitem_ok in E1. destruct E1 as [Hp ->].
    apply bind_ok in E. destruct E as (x & s1 & E1 & E).
    unfold TS.np_random_beta in E1.
    destruct (fle (TS.alpha p) f0 || fle (TS.beta p) f0);
      [cbv [raise] in E1; discriminate|].
    apply ret_ok in E1. destruct E1 as [-> ->].
    eapply IH. exact E.
Qed.

Lemma ts_within_fresh : ts_within (TS.__init__ (F := F) None).
Proof.
  split; [reflexivity|]. split; [intros k a p [=] | intros e []].
Qed.

Lemma ts_with_context_within key s :
  ts_within s -> ts_within (with_context key s).
Proof.
  intros (Harms & Hent & Hhist).
  destruct (with_context_fields key s) as (Ha & _ & _ & Hh).
  split; [congruence|]. split.
  - intros k a p. rewrite with_context_entry.
    destruct (dict_mem (TS.distributions s) key); [apply Hent|].
    destruct (String.eqb key k); [|apply Hent].
    destruct (in_dec string_dec a (TS.arms s)); [|discriminate].
    intros _. congruence.
  - rewrite Hh. exact Hhist.
Qed.

Lemma ts_update_within t c h arm got s :
  ts_within s -> ts_within (state_of (TS.update t c h arm got s)).
Proof.
  intros Hw. pose proof (ts_update_run t c h arm got s) as Hrun.
  cbn zeta in Hrun. set (key := TS._get_context_key t c h) in *.
  pose proof (ts_with_context_within key Hw) as (Ha1 & He1 & Hh1).
  destruct (with_context_fields key s) as (Ha0 & _ & _ & Hh0).
  destruct (ts_entry (with_context key s) key arm) as [p|] eqn:Hp.
  - destruct Hrun as (s2 & -> & Ha & _ & _ & Hh & _ & He). cbn [state_of].
    split; [congruence|]. split.
    + intros k a q. rewrite He.
      destruct (String.eqb_spec key k) as [<-|]; cbn [andb]; [|apply He1].
      destruct (String.eqb_spec arm a) as [<-|]; [|apply He1].
      intros _. eapply He1. exact Hp.
    + rewrite Hh. apply Hw.
  - rewrite Hrun. cbn [state_of]. split; [exact Ha1|].
    split; [exact He1 | exact Hh1].
Qed.

Lemma ts_select_arm_within t c h draw s :
  ts_within s -> ts_within (state_of (TS.select_arm t c h draw s)).
Proof.
  intros Hw. rewrite ts_select_arm_eq. cbn zeta.
  set (key := TS._get_context_key t c h).
  pose proof (ts_with_context_within key Hw) as Hw1.
  destruct (TS.sample_arms key draw 0 _ [] _) as [samples s2|e s2] eqn:Hs;
    [|exact Hw1].
  destruct (py_max_key opt_gt (dict_get samples) (dict_keys samples))
    as [a|] eqn:Hmax; [|exact Hw1].
  cbn [state_of]. destruct Hw1 as (Ha1 & He1 & Hh1).
  split; [exact Ha1|]. split; [exact He1|].
  cbn [TS.arm_history]. intros e Hin. apply in_app_or in Hin.
  destruct Hin as [Hin|[<-|[]]]; [now apply Hh1|].
  cbn [TS.sel_arm]. apply py_max_key_in in Hmax.
  apply ts_sample_arms_value in Hs. subst samples.
  rewrite Ha1 in Hmax. exact Hmax.
Qed.

Lemma ts_step_within s s' : ts_step s s' -> ts_within s -> ts_within s'.
Proof.
  intros Hstep Hw. destruct Hstep.
  - now apply ts_select_arm_within.
  - now apply ts_update_within.
  - now rewrite reads_get_arm_probabilities.
  - now rewrite reads_get_best_arm.
  - destruct Hw as (Ha & He & _). split; [exact Ha|].
    split; [exact He | intros e []].
Qed.

Lemma ts_reachable_within s : ts_reachable s -> ts_within s.
Proof.
  induction 1 as [|s s' _ IH Hstep]; [apply ts_within_fresh|].
  eapply ts_step_within; eassumption.
Qed.

Lemma ts_session_reachable s : ts_session s -> ts_reachable s.
Proof.
  induction 1; [apply ts_fresh | | | |];
    (eapply ts_next; [eassumption | constructor]).
Qed.

(** The row [update] and [select_arm] work on is there once the lazy
    initialisation has run, and it has no entry for an unknown arm. *)
Lemma with_context_has_key key s :
  dict_mem (TS.distributions (with_context key s)) key = true.
Proof. rewrite with_context_mem, String.eqb_refl. reflexivity. Qed.

Lemma ts_entry_unknown key arm s :
  ts_within s -> ~ In arm TS.default_arms ->
  ts_entry (with_context key s) key arm = None.
Proof.
  intros Hw Hnin.
  destruct (ts_entry (with_context key s) key arm) as [p|] eqn:E;
    [|reflexivity].
  exfalso. apply Hnin.
  eapply (ts_with_context_within key Hw). exact E.
Qed.

(** X9. On a reachable bandit [update] with an arm that is not one of
    the three raises [KeyError].  Neither counter moves and no
    parameter changes, but the row of the context has been created. *)
Theorem ts_update_unknown_arm (s : TS.agent F) (t c : string) (h : bool)
    (arm : string) (got : bool) :
  ts_reachable s -> ~ In arm TS.default_arms ->
  TS.update t c h arm got s =
    Raise KeyError (with_context (TS._get_context_key t c h) s) /\
  dict_mem (TS.distributions (with_context (TS._get_context_key t c h) s))
           (TS._get_context_key t c h) = true /\
  TS.total_selections (with_context (TS._get_context_key t c h) s)
    = TS.total_selections s /\
  TS.total_successes (with_context (TS._get_context_key t c h) s)
    = TS.total_successes s /\
  (forall k a p, ts_entry s k a = Some p ->
     ts_entry (with_context (TS._get_context_key t c h) s) k a = Some p).
Proof.
  intros Hreach Hnin.
  pose proof (ts_update_run t c h arm got s) as Hrun. cbn zeta in Hrun.
  rewrite (ts_entry_unknown _ (ts_reachable_within Hreach) Hnin) in Hrun.
  split; [exact Hrun|]. split; [apply with_context_has_key|].
  split; [apply with_context_fields|]. split; [apply with_context_fields|].
  intros k a p. apply with_context_keeps.
Qed.

(** The table never loses a context. *)
Lemma ts_select_arm_mem t c h draw s k :
  dict_mem (TS.distributions s) k = true ->
  dict_mem (TS.distributions (state_of (TS.select_arm t c h draw s))) k
    = true.
Proof.
  intros Hk. destruct (ts_select_arm_shape t c h draw s) as (_ & -> & _).
  rewrite with_context_mem, Hk. apply orb_true_r.
Qed.

Lemma ts_update_mem t c h arm got s k :
  dict_mem (TS.distributions s) k = true ->
  dict_mem (TS.distributions (state_of (TS.update t c h arm got s))) k
    = true.
Proof.
  intros Hk. pose proof (ts_update_run t c h arm got s) as Hrun.
  cbn zeta in Hrun.
  assert (Hk1 : dict_mem (TS.distributions
                  (with_context (TS._get_context_key t c h) s)) k = true).
  { rewrite with_context_mem, Hk. apply orb_true_r. }
  destruct (ts_entry _ _ arm).
  - destruct Hrun as (s2 & -> & _ & _ & _ & _ & Hm & _). cbn [state_of].
    now rewrite Hm.
  - now rewrite Hrun.
Qed.

Lemma ts_select_arm_history t c h draw s :
  ts_within s -> ts_history_ok s ->
  ts_history_ok (state_of (TS.select_arm t c h draw s)).
Proof.
  intros Hw [Hlen Hent].
  pose proof (fun k => @ts_select_arm_mem t c h draw s k) as Hmono.
  rewrite ts_select_arm_eq in *. cbn zeta in *.
  set (key := TS._get_context_key t c h) in *.
  destruct (with_context_fields key s) as (Ha & Hsel & _ & Hh).
  destruct (TS.sample_arms key draw 0 _ [] _) as [samples s2|ex s2] eqn:Hs;
    [destruct (py_max_key opt_gt (dict_get samples) (dict_keys samples))
       as [a|] eqn:Hmax|]; cbn [state_of] in *.
  - split.
    + cbn [TS.total_selections TS.arm_history].
      rewrite length_app, Hh, Hsel, Hlen. cbn [List.length]. lia.
    + cbn [TS.arm_history]. intros e Hin. apply in_app_or in Hin.
      destruct Hin as [Hin|[<-|[]]].
      * rewrite Hh in Hin. destruct (Hent e Hin) as (Hk & Hkeys & Hm).
        split; [now apply Hmono | split; assumption].
      * cbn [TS.sel_context TS.sel_samples TS.sel_arm TS.distributions].
        split; [apply with_context_has_key|]. split; [|exact Hmax].
        apply ts_sample_arms_value in Hs. subst samples.
        rewrite Ha, (proj1 Hw). reflexivity.
  - split; [now rewrite Hsel, Hh|]. rewrite Hh. intros e Hin.
    destruct (Hent e Hin) as (Hk & Hkeys & Hm).
    split; [now apply Hmono | split; assumption].
  - split; [now rewrite Hsel, Hh|]. rewrite Hh. intros e Hin.
    destruct (Hent e Hin) as (Hk & Hkeys & Hm).
    split; [now apply Hmono | split; assumption].
Qed.

Lemma ts_update_history t c h arm got s :
  ts_history_ok s -> ts_history_ok (state_of (TS.update t c h arm got s)).
Proof.
  intros [Hlen Hent].
  pose proof (fun k => @ts_update_mem t c h arm got s k) as Hmono.
  pose proof (ts_update_run t c h arm got s) as Hrun. cbn zeta in Hrun.
  set (key := TS._get_context_key t c h) in *.
  destruct (with_context_fields key s) as (_ & Hsel & _ & Hh).
  assert (Hfields :
    TS.total_selections (state_of (TS.update t c h arm got s))
      = TS.total_selections s /\
    TS.arm_history (state_of (TS.update t c h arm got s))
      = TS.arm_history s).
  { destruct (ts_entry _ _ arm).
    - destruct Hrun as (s2 & -> & _ & Hsel2 & _ & Hh2 & _). now split.
    - rewrite Hrun. now split. }
  destruct Hfields as [Hs2 Hh2]. split; [now rewrite Hs2, Hh2|].
  rewrite Hh2. intros e Hin. destruct (Hent e Hin) as (Hk & Hkeys & Hm).
  split; [now apply Hmono | split; assumption].
Qed.

Lemma ts_session_history_ok s : ts_session s -> ts_history_ok s.
Proof.
  induction 1 as [|s t c h draw Hs IH|s t c h arm got Hs IH
                  |s t c h Hs IH|s t c h Hs IH].
  - split; [reflexivity | intros e []].
  - apply ts_select_arm_history; [|exact IH].
    apply ts_reachable_within, ts_session_reachable, Hs.
  - now apply ts_update_history.
  - now rewrite reads_get_arm_probabilities.
  - now rewrite reads_get_best_arm.
Qed.

(** X10. In one session, that is a fresh bandit and method calls with
    no reload between them, [total_selections] is the length of
    [arm_history]; and every entry of the history names one of the
    three arms, names a context the table has a row for, holds a
    sample for each of the three arms, in their order, and names the
    arm that [max] picks among those samples. *)
Theorem ts_session_history (s : TS.agent F) :
  ts_session s ->
  TS.total_selections s = Z.of_nat (List.length (TS.arm_history s)) /\
  forall e, In e (TS.arm_history s) ->
    In (TS.sel_arm e) TS.default_arms /\
    dict_mem (TS.distributions s) (TS.sel_context e) = true /\
    dict_keys (TS.sel_samples e) = TS.default_arms /\
    py_max_key opt_gt (dict_get (TS.sel_samples e))
               (dict_keys (TS.sel_samples e)) = Some (TS.sel_arm e).
Proof.
  intros Hs. destruct (ts_session_history_ok Hs) as [Hlen Hent].
  split; [exact Hlen|]. intros e Hin. split; [|now apply Hent].
  now apply (ts_reachable_within (ts_session_reachable Hs)).
Qed.

Lemma selections_of_cons arm (e : TS.selection F) history :
  selections_of arm (e :: history) =
  (if String.eqb (TS.sel_arm e) arm then 1 else 0)
  + selections_of arm history.
Proof.
  unfold selections_of. cbn [filter].
  destruct (String.eqb (TS.sel_arm e) arm); cbn [List.length]; lia.
Qed.

Lemma count_arms_run (history : list (TS.selection F)) :
  forall (a b c : Z) s,
    (forall e, In e history -> In (TS.sel_arm e) TS.default_arms) ->
    count_arms history
      [("formal", a); ("casual", b); ("connection_focused", c)] s =
    Ok [("formal", a + selections_of "formal" history);
        ("casual", b + selections_of "casual" history);
        ("connection_focused",
         c + selections_of "connection_focused" history)] s.
Proof.
  induction history as [|e rest IH]; intros a b c s Hin; cbn [count_arms].
  - unfold selections_of. cbn. rewrite !Z.add_0_r. reflexivity.
  - assert (He : In (TS.sel_arm e) TS.default_arms) by (apply Hin; now left).
    assert (Hrest : forall e', In e' rest ->
                      In (TS.sel_arm e') TS.default_arms)
      by (intros e' He'; apply Hin; now right).
    rewrite !selections_of_cons.
    cbn in He. destruct He as [He|[He|[He|[]]]]; rewrite <- He;
      unfold bind, getitem; cbn -[Z.add selections_of count_arms];
      rewrite (IH _ _ _ s Hrest);
      rewrite ?Z.add_0_l, ?Z.add_assoc; reflexivity.
Qed.

Lemma selections_of_total (history : list (TS.selection F)) :
  (forall e, In e history -> In (TS.sel_arm e) TS.default_arms) ->
  selections_of "formal" history + selections_of "casual" history
  + selections_of "connection_focused" history
  = Z.of_nat (List.length history).
Proof.
  induction history as [|e rest IH]; intros Hin; [reflexivity|].
  assert (He : In (TS.sel_arm e) TS.default_arms) by (apply Hin; now left).
  rewrite !selections_of_cons. cbn [List.length]. rewrite Nat2Z.inj_succ.
  rewrite <- IH by (intros e' He'; apply Hin; now right).
  cbn in He. destruct He as [He|[He|[He|[]]]]; rewrite <- He;
    cbn -[Z.add Z.of_nat selections_of]; lia.
Qed.

(** X11. On a reachable bandit the counting loop of [get_statistics]
    never meets an arm it has no counter for: it returns, for each of
    the three arms in their order, the number of history entries that
    name it, and leaves the bandit as it found it.  The three counts
    add up to the length of the history. *)
Theorem ts_arm_counts (s : TS.agent F) :
  ts_reachable s ->
  arm_counts s =
    Ok [("formal", selections_of "formal" (TS.arm_history s));
        ("casual", selections_of "casual" (TS.arm_history s));
        ("connection_focused",
         selections_of "connection_focused" (TS.arm_history s))] s /\
  selections_of "formal" (TS.arm_history s)
  + selections_of "casual" (TS.arm_history s)
  + selections_of "connection_focused" (TS.arm_history s)
  = Z.of_nat (List.length (TS.arm_history s)).
Proof.
  intros Hreach.
  destruct (ts_reachable_within Hreach) as (Harms & _ & Hhist).
  split; [|now apply selections_of_total].
  unfold arm_counts, bind, gets. rewrite Harms.
  change (dict_comp TS.default_arms (fun _ : string => 0))
    with [("formal", 0); ("casual", 0); ("connection_focused", 0)].
  rewrite count_arms_run by exact Hhist. reflexivity.
Qed.

End BanditWithin.

(* ------------------------------------------------------------------ *)
(** ** The bandit: selecting, estimating and counting *)

Section BanditChoice.
Context {F : Type} {PF : PyFloat F} {FU : FloatUnit F} {FO : FloatOrder F}
        {FS : FloatSum F}.
Implicit Types s : TS.agent F.

(** X12. On a reachable bandit [select_arm] returns.  The samples are
    the three draws, in the order of the arms; the arm returned has a
    sample that no sample exceeds; the selection is counted and is
    appended to [arm_history] with the context key and the samples;
    the table is the one the lazy initialisation of the context's row
    left, and the success counter is untouched. *)
Theorem ts_select_arm_effect (s : TS.agent F) (t c : string) (h : bool)
    (draw : nat -> F) :
  ts_reachable s ->
  let key := TS._get_context_key t c h in
  let samples := [("formal", draw 0%nat); ("casual", draw 1%nat);
                  ("connection_focused", draw 2%nat)] in
  exists arm x,
    TS.select_arm t c h draw s =
      Ok arm (TS.mk_agent (TS.arms s)
                (TS.distributions (with_context key s))
                (TS.total_selections s + 1) (TS.total_successes s)
                (TS.arm_history s ++ [TS.mk_selection key arm samples])) /\
    dict_get samples arm = Some x /\
    (forall a' x', dict_get samples a' = Some x' -> fgt x' x = false).
Proof.
  intros Hreach key samples.
  pose proof (ts_reachable_ok Hreach) as Hok.
  pose proof (ts_reachable_arms Hreach) as Harms.
  pose proof (ts_with_context_ok key Hok) as Hok1.
  destruct (with_context_fields key s) as (Ha & Hsel & Hsuc & Hhist).
  destruct (@ts_sample_arms_returns F _ _ key draw _ Hok1
              (with_context_has_key key s)
              (TS.arms (with_context key s)) 0%nat [] (fun a Hin => Hin))
    as (samples' & Hrun & _).
  pose proof (ts_sample_arms_value _ _ _ _ _ _ Hrun) as Hval.
  rewrite Ha, Harms in Hval.
  change (samples_of draw 0 TS.default_arms []) with samples in Hval.
  subst samples'.
  destruct (@py_max_key_dict F _ _ samples) as (arm & x & Hmax & Hx & Hdom);
    [discriminate|].
  exists arm, x. split; [|split; assumption].
  rewrite ts_select_arm_eq. cbn zeta. fold key. rewrite Hrun, Hmax.
  rewrite Ha, Hsel, Hsuc, Hhist. reflexivity.
Qed.

Lemma ts_mean_arms_step key arm todo (probabilities : dict F) s p :
  ts_entry s key arm = Some p -> params_ge_one p ->
  TS.mean_arms key (arm :: todo) probabilities s =
  TS.mean_arms key todo (dict_set probabilities arm (beta_mean p)) s.
Proof.
  intros Hp [Halpha Hbeta]. unfold ts_entry in Hp.
  destruct (dict_get (TS.distributions s) key) as [row|] eqn:Hrow;
    [|discriminate].
  cbn [TS.mean_arms]. unfold bind, gets, getitem, TS.py_div.
  rewrite Hrow. cbn [ret]. rewrite Hp. cbn [ret].
  rewrite (sum_nonzero _ _ Halpha Hbeta). reflexivity.
Qed.

Lemma ts_get_arm_probabilities_run t c h s :
  ts_reachable s ->
  TS.get_arm_probabilities t c h s =
    Ok [("formal", arm_mean s (TS._get_context_key t c h) "formal");
        ("casual", arm_mean s (TS._get_context_key t c h) "casual");
        ("connection_focused",
         arm_mean s (TS._get_context_key t c h) "connection_focused")] s.
Proof.
  intros Hreach. set (key := TS._get_context_key t c h).
  pose proof (ts_reachable_ok Hreach) as (Hne & Hfull & Hge).
  pose proof (ts_reachable_arms Hreach) as Harms.
  unfold TS.get_arm_probabilities. fold key. unfold bind at 1. cbn [gets].
  unfold bind at 1. cbn [gets]. rewrite Harms.
  destruct (dict_mem (TS.distributions s) key) eqn:Hmem; cbn [negb].
  - destruct (Hfull key "formal" Hmem) as [p1 Hp1];
      [rewrite Harms; cbn; tauto|].
    destruct (Hfull key "casual" Hmem) as [p2 Hp2];
      [rewrite Harms; cbn; tauto|].
    destruct (Hfull key "connection_focused" Hmem) as [p3 Hp3];
      [rewrite Harms; cbn; tauto|].
    unfold TS.default_arms.
    rewrite (@ts_mean_arms_step key "formal" _ _ s p1 Hp1 (Hge _ _ _ Hp1)).
    rewrite (@ts_mean_arms_step key "casual" _ _ s p2 Hp2 (Hge _ _ _ Hp2)).
    rewrite (@ts_mean_arms_step key "connection_focused" _ _ s p3 Hp3
               (Hge _ _ _ Hp3)).
    cbn [TS.mean_arms]. unfold arm_mean. rewrite Hp1, Hp2, Hp3. reflexivity.
  - apply dict_mem_false in Hmem. unfold arm_mean, ts_entry.
    rewrite Hmem. reflexivity.
Qed.

(** X13. On a reachable bandit [get_arm_probabilities] returns, never
    dividing by zero, and changes nothing.  For each of the three
    arms, in their order, it gives [alpha / (alpha + beta)] of the
    arm's entry under the context, and 0.5 when the context has no
    row. *)
Theorem ts_arm_probabilities_are_means (s : TS.agent F) (t c : string)
    (h : bool) :
  ts_reachable s ->
  TS.get_arm_probabilities t c h s =
    Ok [("formal", arm_mean s (TS._get_context_key t c h) "formal");
        ("casual", arm_mean s (TS._get_context_key t c h) "casual");
        ("connection_focused",
         arm_mean s (TS._get_context_key t c h) "connection_focused")] s /\
  (forall arm p,
     ts_entry s (TS._get_context_key t c h) arm = Some p ->
     arm_mean s (TS._get_context_key t c h) arm =
       fdiv (TS.alpha p) (fadd (TS.alpha p) (TS.beta p)) /\
     feq (fadd (TS.alpha p) (TS.beta p)) f0 = false).
Proof.
  intros Hreach. split; [now apply ts_get_arm_probabilities_run|].
  intros arm p Hp. unfold arm_mean. rewrite Hp. split; [reflexivity|].
  destruct (ts_reachable_ok Hreach) as (_ & _ & Hge).
  destruct (Hge _ _ _ Hp) as [Halpha Hbeta]. now apply sum_nonzero.
Qed.

(** X14. On a reachable bandit [get_best_arm] returns one of the three
    arms together with its estimate, which no arm's estimate exceeds,
    and changes nothing.  For a context with no row the answer is the
    first arm, [("formal", 0.5)]. *)
Theorem ts_get_best_arm_spec (s : TS.agent F) (t c : string) (h : bool) :
  ts_reachable s ->
  exists arm,
    TS.get_best_arm t c h s =
      Ok (arm, arm_mean s (TS._get_context_key t c h) arm) s /\
    In arm TS.default_arms /\
    (forall a, In a TS.default_arms ->
       fgt (arm_mean s (TS._get_context_key t c h) a)
           (arm_mean s (TS._get_context_key t c h) arm) = false) /\
    (dict_get (TS.distributions s) (TS._get_context_key t c h) = None ->
     arm = "formal" /\
     arm_mean s (TS._get_context_key t c h) arm = fhalf).
Proof.
  intros Hreach.
  pose proof (ts_get_arm_probabilities_run t c h Hreach) as Hrun.
  set (key := TS._get_context_key t c h) in *.
  set (probs := [("formal", arm_mean s key "formal");
                 ("casual", arm_mean s key "casual");
                 ("connection_focused",
                  arm_mean s key "connection_focused")]) in *.
  destruct (@py_max_key_dict F _ _ probs) as (arm & v & Hmax & Hv & Hdom);
    [discriminate|].
  assert (Hin : In arm TS.default_arms)
    by (apply py_max_key_in in Hmax; exact Hmax).
  assert (Hval : forall a, In a TS.default_arms ->
                   dict_get probs a = Some (arm_mean s key a)).
  { intros a Ha. cbn in Ha. destruct Ha as [<-|[<-|[<-|[]]]]; reflexivity. }
  assert (E : v = arm_mean s key arm)
    by (rewrite (Hval arm Hin) in Hv; congruence).
  subst v. exists arm. split; [|split; [exact Hin|split]].
  - unfold TS.get_best_arm, bind. rewrite Hrun.
    unfold max_or_raise. rewrite Hmax. cbn [ret].
    unfold getitem. rewrite Hv. reflexivity.
  - intros a Ha. eapply Hdom. apply Hval, Ha.
  - intros Hnone.
    assert (Hhalf : forall a, arm_mean s key a = fhalf).
    { intros a. unfold arm_mean, ts_entry. now rewrite Hnone. }
    split; [|apply Hhalf].
    unfold probs in Hmax. rewrite !Hhalf in Hmax.
    unfold py_max_key, py_max in Hmax.
    cbn [dict_keys map fst max_loop] in Hmax. cbn in Hmax.
    unfold fgt in Hmax. rewrite !flt_irrefl in Hmax. congruence.
Qed.

Lemma ts_update_counts t c h arm got s :
  ts_reachable s ->
  TS.total_successes (state_of (TS.update t c h arm got s)) =
    TS.total_successes s + (if known_arm arm && got then 1 else 0) /\
  TS.total_selections (state_of (TS.update t c h arm got s)) =
    TS.total_selections s.
Proof.
  intros Hreach.
  pose proof (ts_update_run t c h arm got s) as Hrun. cbn zeta in Hrun.
  set (key := TS._get_context_key t c h) in *.
  destruct (with_context_fields key s) as (Ha & Hsel & Hsuc & _).
  destruct (known_arm arm) eqn:E.
  - apply known_arm_iff in E.
    destruct (ts_with_context_ok key (ts_reachable_ok Hreach))
      as (_ & Hfull & _).
    destruct (Hfull key arm) as [p Hp].
    { apply with_context_has_key. }
    { rewrite Ha, (ts_reachable_arms Hreach). exact E. }
    rewrite Hp in Hrun.
    destruct Hrun as (s2 & -> & _ & Hsel2 & Hsuc2 & _).
    cbn [state_of andb]. split; assumption.
  - assert (Hn : ~ In arm TS.default_arms).
    { intros Hin. apply known_arm_iff in Hin. congruence. }
    rewrite (ts_entry_unknown key (ts_reachable_within Hreach) Hn) in Hrun.
    rewrite Hrun. cbn [state_of andb]. split; [lia | exact Hsel].
Qed.

Lemma ts_run_counts (calls : list ts_call) : forall s,
  ts_reachable s ->
  TS.total_successes (ts_run calls s) =
    TS.total_successes s + counted_responses calls /\
  TS.total_selections (ts_run calls s) = TS.total_selections s.
Proof.
  unfold ts_run, counted_responses.
  induction calls as [|c calls IH]; intros s Hreach; cbn [fold_left filter].
  - cbn. split; [lia | reflexivity].
  - destruct (IH _ (ts_next Hreach
                      (ts_step_update s (call_title c) (call_culture c)
                         (call_connection c) (call_arm c)
                         (call_got_response c)))) as [-> ->].
    destruct (ts_update_counts (call_title c) (call_culture c)
                (call_connection c) (call_arm c) (call_got_response c)
                Hreach) as [-> ->].
    split; [|reflexivity].
    destruct (known_arm (call_arm c) && call_got_response c);
      cbn [List.length]; lia.
Qed.

(** X15. Over any sequence of [update] calls on a reachable bandit,
    [total_successes] grows by the number of calls that name one of
    the three arms and report a response: a call that reports no
    response, or that raises on an unknown arm, is not counted.
    [total_selections] does not move. *)
Theorem ts_total_successes_counts_responses (s : TS.agent F)
    (calls : list ts_call) :
  ts_reachable s ->
  TS.total_successes (ts_run calls s) =
    TS.total_successes s + counted_responses calls /\
  TS.total_selections (ts_run calls s) = TS.total_selections s.
Proof. intros Hreach. now apply ts_run_counts. Qed.

End BanditChoice.

Section BanditReload.
Context {F : Type} `{PyFloat F}.

(** X16. A bandit rebuilt from what a reachable bandit serialised to
    has that bandit's table and counters and an empty history: the
    counting loop of [get_statistics] answers zero for every arm
    whatever [total_selections] says. *)
Theorem ts_reload_forgets_history (s : TS.agent F) (now : string) :
  ts_reachable s ->
  TS.arm_history (TS.__init__ (Some (TS.to_dict now s))) = [] /\
  TS.total_selections (TS.__init__ (Some (TS.to_dict now s)))
    = TS.total_selections s /\
  TS.total_successes (TS.__init__ (Some (TS.to_dict now s)))
    = TS.total_successes s /\
  TS.distributions (TS.__init__ (Some (TS.to_dict now s)))
    = TS.distributions s /\
  arm_counts (TS.__init__ (Some (TS.to_dict now s))) =
    Ok [("formal", 0); ("casual", 0); ("connection_focused", 0)]
       (TS.__init__ (Some (TS.to_dict now s))).
Proof.
  intros Hreach. destruct (ts_reachable_within Hreach) as (Harms & _).
  repeat (split; [reflexivity|]).
  unfold arm_counts, bind, gets.
  change (TS.arms (TS.__init__ (Some (TS.to_dict now s)))) with (TS.arms s).
  rewrite Harms. reflexivity.
Qed.

End BanditReload.

(* ------------------------------------------------------------------ *)
(** ** The bandit on binary64 *)

Lemma ts_after_one_session : ts_session ts_after_one.
Proof. apply ts_session_update, ts_session_fresh. Qed.

Lemma ts_after_one_reachable : ts_reachable ts_after_one.
Proof. apply ts_session_reachable, ts_after_one_session. Qed.

Lemma ts_after_two_session : ts_session ts_after_two.
Proof. apply ts_session_select, ts_after_one_session. Qed.

Lemma ts_after_two_reachable : ts_reachable ts_after_two.
Proof. apply ts_session_reachable, ts_after_two_session. Qed.

Lemma ts_update_unknown_arm_after_one :
  TS.update "Recruiter" "casual" true "friendly" true ts_after_one =
    Raise KeyError
      (with_context (TS._get_context_key "Recruiter" "casual" true)
                    ts_after_one) /\
  dict_mem (TS.distributions
              (with_context (TS._get_context_key "Recruiter" "casual" true)
                            ts_after_one))
           (TS._get_context_key "Recruiter" "casual" true) = true /\
  TS.total_selections
    (with_context (TS._get_context_key "Recruiter" "casual" true)
                  ts_after_one)
    = TS.total_selections ts_after_one /\
  TS.total_successes
    (with_context (TS._get_context_key "Recruiter" "casual" true)
                  ts_after_one)
    = TS.total_successes ts_after_one /\
  (forall k a p, ts_entry ts_after_one k a = Some p ->
     ts_entry (with_context (TS._get_context_key "Recruiter" "casual" true)
                            ts_after_one) k a = Some p).
Proof.
  apply (@ts_update_unknown_arm binary64 _ ts_after_one
           "Recruiter" "casual" true "friendly" true
           ts_after_one_reachable).
  simpl. intros Hin.
  repeat (destruct Hin as [Hin|Hin]; [discriminate|]). exact Hin.
Defined.

Lemma ts_session_history_after_two :
  TS.total_selections ts_after_two
    = Z.of_nat (List.length (TS.arm_history ts_after_two)) /\
  forall e, In e (TS.arm_history ts_after_two) ->
    In (TS.sel_arm e) TS.default_arms /\
    dict_mem (TS.distributions ts_after_two) (TS.sel_context e) = true /\
    dict_keys (TS.sel_samples e) = TS.default_arms /\
    py_max_key opt_gt (dict_get (TS.sel_samples e))
               (dict_keys (TS.sel_samples e)) = Some (TS.sel_arm e).
Proof.
  exact (@ts_session_history binary64 _ ts_after_two ts_after_two_session).
Defined.

Lemma ts_arm_counts_after_two :
  arm_counts ts_after_two =
    Ok [("formal", selections_of "formal" (TS.arm_history ts_after_two));
        ("casual", selections_of "casual" (TS.arm_history ts_after_two));
        ("connection_focused",
         selections_of "connection_focused" (TS.arm_history ts_after_two))]
       ts_after_two /\
  selections_of "formal" (TS.arm_history ts_after_two)
  + selections_of "casual" (TS.arm_history ts_after_two)
  + selections_of "connection_focused" (TS.arm_history ts_after_two)
  = Z.of_nat (List.length (TS.arm_history ts_after_two)).
Proof.
  exact (@ts_arm_counts binary64 _ ts_after_two ts_after_two_reachable).
Defined.

Lemma ts_select_arm_effect_after_one :
  exists arm x,
    TS.select_arm "Recruiter" "casual" true ts_draws ts_after_one =
      Ok arm
         (TS.mk_agent (TS.arms ts_after_one)
            (TS.distributions
               (with_context (TS._get_context_key "Recruiter" "casual" true)
                             ts_after_one))
            (TS.total_selections ts_after_one + 1)
            (TS.total_successes ts_after_one)
            (TS.arm_history ts_after_one
               ++ [TS.mk_selection
                     (TS._get_context_key "Recruiter" "casual" true) arm
                     [("formal", ts_draws 0); ("casual", ts_draws 1);
                      ("connection_focused", ts_draws 2)]])%list) /\
    dict_get [("formal", ts_draws 0); ("casual", ts_draws 1);
              ("connection_focused", ts_draws 2)] arm = Some x /\
    (forall a' x',
       dict_get [("formal", ts_draws 0); ("casual", ts_draws 1);
                 ("connection_focused", ts_draws 2)] a' = Some x' ->
       fgt x' x = false).
Proof.
  exact (@ts_select_arm_effect binary64 _ _ _ ts_after_one
           "Recruiter" "casual" true ts_draws ts_after_one_reachable).
Defined.

Lemma ts_arm_probabilities_are_means_after_one :
  TS.get_arm_probabilities "Recruiter" "casual" true ts_after_one =
    Ok [("formal",
         arm_mean ts_after_one
                  (TS._get_context_key "Recruiter" "casual" true) "formal");
        ("casual",
         arm_mean ts_after_one
                  (TS._get_context_key "Recruiter" "casual" true) "casual");
        ("connection_focused",
         arm_mean ts_after_one
                  (TS._get_context_key "Recruiter" "casual" true)
                  "connection_focused")] ts_after_one /\
  (forall arm p,
     ts_entry ts_after_one (TS._get_context_key "Recruiter" "casual" true)
              arm = Some p ->
     arm_mean ts_after_one (TS._get_context_key "Recruiter" "casual" true)
              arm =
       fdiv (TS.alpha p) (fadd (TS.alpha p) (TS.beta p)) /\
     feq (fadd (TS.alpha p) (TS.beta p)) f0 = false).
Proof.
  exact (@ts_arm_probabilities_are_means binary64 _ _ _ ts_after_one
           "Recruiter" "casual" true ts_after_one_reachable).
Defined.

Lemma ts_get_best_arm_spec_after_one :
  exists arm,
    TS.get_best_arm "Recruiter" "casual" true ts_after_one =
      Ok (arm, arm_mean ts_after_one
                 (TS._get_context_key "Recruiter" "casual" true) arm)
         ts_after_one /\
    In arm TS.default_arms /\
    (forall a, In a TS.default_arms ->
       fgt (arm_mean ts_after_one
              (TS._get_context_key "Recruiter" "casual" true) a)
           (arm_mean ts_after_one
              (TS._get_context_key "Recruiter" "casual" true) arm)
         = false) /\
    (dict_get (TS.distributions ts_after_one)
              (TS._get_context_key "Recruiter" "casual" true) = None ->
     arm = "formal" /\
     arm_mean ts_after_one
       (TS._get_context_key "Recruiter" "casual" true) arm = fhalf).
Proof.
  exact (@ts_get_best_arm_spec binary64 _ _ _ _ ts_after_one
           "Recruiter" "casual" true ts_after_one_reachable).
Defined.

Lemma ts_total_successes_counts_responses_after_one :
  TS.total_successes (ts_run ts_three_calls ts_after_one) =
    TS.total_successes ts_after_one + counted_responses ts_three_calls /\
  TS.total_selections (ts_run ts_three_calls ts_after_one)
    = TS.total_selections ts_after_one.
Proof.
  exact (@ts_total_successes_counts_responses binary64 _ _ ts_after_one
           ts_three_calls ts_after_one_reachable).
Defined.

Lemma ts_reload_forgets_history_after_two :
  TS.arm_history (TS.__init__ (Some (TS.to_dict "2024-05-01T09:30:00"
                                                ts_after_two))) = [] /\
  TS.total_selections
    (TS.__init__ (Some (TS.to_dict "2024-05-01T09:30:00" ts_after_two)))
    = TS.total_selections ts_after_two /\
  TS.total_successes
    (TS.__init__ (Some (TS.to_dict "2024-05-01T09:30:00" ts_after_two)))
    = TS.total_successes ts_after_two /\
  TS.distributions
    (TS.__init__ (Some (TS.to_dict "2024-05-01T09:30:00" ts_after_two)))
    = TS.distributions ts_after_two /\
  arm_counts
    (TS.__init__ (Some (TS.to_dict "2024-05-01T09:30:00" ts_after_two))) =
    Ok [("formal", 0); ("casual", 0); ("connection_focused", 0)]
       (TS.__init__ (Some (TS.to_dict "2024-05-01T09:30:00" ts_after_two))).
Proof.
  exact (@ts_reload_forgets_history binary64 _ ts_after_two
           "2024-05-01T09:30:00" ts_after_two_reachable).
Defined.

(* ------------------------------------------------------------------ *)
(** ** The scheduler: the shape of the rows and the summary *)

Lemma Forall_dict_set {V} (P : string * V -> Prop) (d : dict V) k v :
  (forall k', P (k', v)) -> Forall P d -> Forall P (dict_set d k v).
Proof.
  intros Hv. induction d as [|[k' v'] d IH]; simpl; intros Hd.
  - constructor; [apply Hv | constructor].
  - inversion Hd as [|? ? Hkv Hd']; subst.
    destruct (String.eqb k' k); constructor; auto.
Qed.

Lemma dict_get_In {V} (d : dict V) k v : dict_get d k = Some v -> In (k, v) d.
Proof.
  induction d as [|[k' v'] d IH]; simpl; [discriminate|].
  destruct (String.eqb_spec k' k) as [->|].
  - intros [= ->]. now left.
  - intros Hd. right. now apply IH.
Qed.

Section SchedulerRows.
Context {F : Type} `{PyFloat F}.
Implicit Types s : QL.agent F.

Lemma ql_rows_row s k row :
  ql_rows s -> dict_get (QL.q_table s) k = Some row ->
  dict_keys row = QL.default_actions.
Proof.
  intros [_ Hrows] Hrow. apply dict_get_In in Hrow.
  rewrite Forall_forall in Hrows. exact (Hrows _ Hrow).
Qed.

Lemma ql_init_state_rows k s :
  ql_rows s -> ql_rows (state_of (QL.init_state k s)).
Proof.
  intros [Ha Hr]. cbn. destruct (dict_mem (QL.q_table s) k);
    [split; assumption|].
  split; [exact Ha|]. cbn. apply Forall_dict_set; [|exact Hr].
  intros k'. cbn [snd]. rewrite Ha. reflexivity.
Qed.

Lemma ql_update_rows st a r nxt s :
  ql_rows s -> ql_rows (state_of (QL.update st a r nxt s)).
Proof.
  intros Hok. destruct st as [[d c] h]. unfold QL.update.
  apply inv_bind; [now apply ql_init_state_rows|]. intros [] s1 _ Hok1.
  inv_read. inv_read. inv_read.
  assert (Hact : In a QL.default_actions).
  { subst.
    match goal with
    | E1 : dict_get (QL.q_table s1) _ = Some ?row,
      E2 : dict_get ?row a = Some _ |- _ =>
        rewrite <- (@ql_rows_row s1 _ _ Hok1 E1); apply dict_keys_get; eauto
    end. }
  apply inv_bind.
  { destruct nxt as [[[d' c'] h']|]; [|exact Hok1].
    apply inv_bind; [now apply ql_init_state_rows|]. intros [] s2 _ Hok2.
    inv_read. inv_read. now rewrite reads_max_or_raise. }
  intros max_next_q s2 _ Hok2.
  inv_read. inv_read. inv_read. inv_read.
  apply inv_bind.
  - cbn. subst.
    match goal with
    | E : dict_get (QL.q_table s2) _ = Some _ |- _ =>
        pose proof (@ql_rows_row s2 _ _ Hok2 E) as Hk
    end.
    split; [apply Hok2|]. cbn. apply Forall_dict_set; [|apply Hok2].
    intros k'. cbn [snd].
    rewrite dict_keys_set_present; [exact Hk | rewrite Hk; exact Hact].
  - intros [] s3 _ Hok3. cbn. destruct Hok3. split; assumption.
Qed.

Lemma ql_reachable_rows s : ql_reachable s -> ql_rows s.
Proof.
  induction 1.
  - split; [reflexivity | constructor].
  - rewrite ql_get_action_state. now apply ql_init_state_rows.
  - now apply ql_update_rows.
  - rewrite ql_get_best_action_state. now apply ql_init_state_rows.
  - destruct IHql_reachable as [Ha Hr]. split; [exact Ha | exact Hr].
Qed.

Lemma all_q_values_length (qt : dict (dict F)) :
  Forall (fun kr => dict_keys (snd kr) = QL.default_actions) qt ->
  List.length (flat_map (fun row => dict_values row) (dict_values qt)) =
  (6 * List.length qt)%nat.
Proof.
  induction 1 as [|[k row] qt Hrow Hqt IH]; [reflexivity|].
  cbn [dict_values map snd flat_map List.length] in *.
  fold (dict_values qt). rewrite length_app, IH.
  unfold dict_values. rewrite length_map.
  rewrite <- (length_map fst row). fold (dict_keys row).
  rewrite Hrow. cbn [QL.default_actions List.length]. lia.
Qed.

(** X17. On a reachable scheduler every row lists the six actions,
    each once, in the order [wait_1d] to [wait_14d]: the order in
    which [max] and the comprehension of [get_action] walk a row. *)
Theorem ql_rows_list_the_six_actions (s : QL.agent F) (k : string)
    (row : dict F) :
  ql_reachable s ->
  dict_get (QL.q_table s) k = Some row ->
  dict_keys row =
    ["wait_1d"; "wait_3d"; "wait_5d"; "wait_7d"; "wait_10d"; "wait_14d"].
Proof.
  intros Hreach Hrow.
  exact (@ql_rows_row s k row (ql_reachable_rows Hreach) Hrow).
Qed.

(** X18. On a reachable scheduler that has a row, [get_q_table_summary]
    returns all five statistics: the number of rows, the update
    counter, and NumPy's mean, max and min of the flattened table.
    The flattened table holds six values for each row, so the 0.0
    that guards an empty list is never the answer. *)
Theorem ql_summary_of_reachable (np_mean np_max np_min : list F -> F)
    (s : QL.agent F) :
  ql_reachable s -> QL.q_table s <> [] ->
  QL.get_q_table_summary np_mean np_max np_min s =
    [("total_states", VInt (Z.of_nat (List.length (QL.q_table s))));
     ("total_updates", VInt (QL.total_updates s));
     ("avg_q_value", VFloat (np_mean (all_q_values s)));
     ("max_q_value", VFloat (np_max (all_q_values s)));
     ("min_q_value", VFloat (np_min (all_q_values s)))] /\
  List.length (all_q_values s) = (6 * List.length (QL.q_table s))%nat.
Proof.
  intros Hreach Hne.
  pose proof (all_q_values_length (proj2 (ql_reachable_rows Hreach))) as Hlen.
  fold (all_q_values s) in Hlen. split; [|exact Hlen].
  unfold QL.get_q_table_summary. fold (all_q_values s).
  destruct (QL.q_table s) as [|kr rows] eqn:E; [congruence|].
  destruct (all_q_values s) as [|q qs]; [discriminate Hlen | reflexivity].
Qed.

End SchedulerRows.

Lemma ql_rows_list_the_six_actions_after_one :
  dict_keys [("wait_1d", 0%float); ("wait_3d", 0%float);
             ("wait_5d", 5%float); ("wait_7d", 0%float);
             ("wait_10d", 0%float); ("wait_14d", 0%float)] =
    ["wait_1d"; "wait_3d"; "wait_5d"; "wait_7d"; "wait_10d"; "wait_14d"].
Proof.
  apply (@ql_rows_list_the_six_actions binary64 _ ql_after_one
           (QL._get_state_key 4 "startup" true)
           [("wait_1d", 0%float); ("wait_3d", 0%float);
            ("wait_5d", 5%float); ("wait_7d", 0%float);
            ("wait_10d", 0%float); ("wait_14d", 0%float)]
           ql_after_one_reachable).
  vm_compute. reflexivity.
Defined.

Lemma ql_summary_of_reachable_after_one :
  QL.get_q_table_summary first_or_zero first_or_zero first_or_zero
                         ql_after_one =
    [("total_states", VInt (Z.of_nat (List.length (QL.q_table ql_after_one))));
     ("total_updates", VInt (QL.total_updates ql_after_one));
     ("avg_q_value", VFloat (first_or_zero (all_q_values ql_after_one)));
     ("max_q_value", VFloat (first_or_zero (all_q_values ql_after_one)));
     ("min_q_value", VFloat (first_or_zero (all_q_values ql_after_one)))] /\
  List.length (all_q_values ql_after_one)
    = (6 * List.length (QL.q_table ql_after_one))%nat.
Proof.
  apply (@ql_summary_of_reachable binary64 _ first_or_zero first_or_zero
           first_or_zero ql_after_one ql_after_one_reachable).
  vm_compute. discriminate.
Defined.
